(** * swg-js: the client event manager and the propensity server

    A shallow embedding of [src/runtime/client-event-manager.js] and
    [src/runtime/propensity-server.js].

    JavaScript strings are Rocq strings, read as sequences of code units
    below 256.  Numbers are binary64 floats.  Exceptions are made explicit
    with a completion type, mutable objects live in a store addressed by
    locations, and the suspended part of an [async] function is a task put
    on a queue. *)

From Stdlib Require Import PrimFloat Uint63 ZArith Ascii String List Bool Lia.
From Stdlib Require Import DecimalString Decimal DecimalNat.
From Stdlib Require Import SpecFloat FloatOps FloatAxioms.
From stdpp Require Import gmap strings list.

Import ListNotations.
Set Warnings "-register-all".
Local Open Scope string_scope.
Local Open Scope list_scope.

(* ===================================================================== *)
(** * Part I.  Values produced by [JSON.parse], and what reading them does *)
(* ===================================================================== *)

(** A value as [response.json()] delivers it, extended with [undefined],
    which is what reading an absent property gives.  The parser only reads
    it, so it is a tree.  The list under [Obj] holds the own properties of
    the object, one entry per name. *)
Inductive JsVal : Type :=
  | Undefined
  | Null
  | Bool (b : bool)
  | Num (n : float)
  | Str (s : string)
  | Arr (elems : list JsVal)
  | Obj (props : list (string * JsVal)).

(** What a thrown value is, as far as the two files can tell them apart. *)
Inductive Exn (V : Type) : Type :=
  | TypeError (what : string)
  | Error (message : string)
  | Thrown (v : V).
Arguments TypeError {V} what.
Arguments Error {V} message.
Arguments Thrown {V} v.

(** The completion of an evaluation: a value, or an exception on its way up. *)
Inductive Completion (V A : Type) : Type :=
  | Normal (a : A)
  | Throw (e : Exn V).
Arguments Normal {V A} a.
Arguments Throw {V A} e.

(** ** Coercions of the language *)

(** [ToBoolean]: what [!v], [!!v] and [if (v)] look at. *)
Definition truthy (v : JsVal) : bool :=
  match v with
  | Undefined | Null => false
  | Bool b => b
  | Num n => negb (PrimFloat.eqb n 0%float || negb (PrimFloat.eqb n n))
  | Str s => negb (String.eqb s "")
  | Arr _ | Obj _ => true
  end.

(** The decimal spelling of an array index. *)
Definition decimal (i : nat) : string := NilEmpty.string_of_uint (Nat.to_uint i).

(** The number an index stands for in a comparison. *)
Definition nat_to_float (i : nat) : float :=
  PrimFloat.of_uint63 (Uint63.of_Z (Z.of_nat i)).

(** First binding of a name in a property list. *)
Fixpoint assoc {A : Type} (k : string) (props : list (string * A)) : option A :=
  match props with
  | [] => None
  | (k', v) :: rest => if String.eqb k k' then Some v else assoc k rest
  end.

Definition chars (s : string) : list JsVal :=
  List.map (fun c => Str (String c EmptyString)) (list_ascii_of_string s).

(** The index a property name denotes among the first [len] ones, if any. *)
Definition array_index (k : string) (len : nat) : option nat :=
  List.find (fun i => String.eqb (decimal i) k) (List.seq 0 len).

(** [v[k]]: reading a property.  [undefined] and [null] have none, and the
    read throws; a primitive has those of its wrapper, of which only the
    length and the characters of a string matter here. *)
Definition get (v : JsVal) (k : string) : Completion JsVal JsVal :=
  match v with
  | Undefined | Null => Throw (TypeError ("Cannot read property " ++ k))
  | Bool _ | Num _ => Normal Undefined
  | Str s =>
      if String.eqb k "length" then Normal (Num (nat_to_float (String.length s)))
      else match array_index k (String.length s) with
           | Some i => Normal (List.nth i (chars s) Undefined)
           | None => Normal Undefined
           end
  | Arr l =>
      if String.eqb k "length" then Normal (Num (nat_to_float (List.length l)))
      else match array_index k (List.length l) with
           | Some i => Normal (List.nth i l Undefined)
           | None => Normal Undefined
           end
  | Obj props =>
      match assoc k props with
      | Some x => Normal x
      | None => Normal Undefined
      end
  end.

Section Coercions.

(** [StringToNumber] of the language: the number a string spells, [nan]
    when it spells none.  It is part of the host, not of the repository. *)
Variable StringToNumber : string -> float.

(** [ToNumber].  An array is first joined into a string: the empty one
    gives the empty string, a singleton the string of its element, and a
    longer one a string with a comma, which spells no number. *)
Fixpoint ToNumber (v : JsVal) : float :=
  match v with
  | Undefined => nan
  | Null => 0%float
  | Bool b => if b then 1%float else 0%float
  | Num n => n
  | Str s => StringToNumber s
  | Arr [] => 0%float
  | Arr [x] =>
      match x with
      | Undefined | Null => 0%float
      | Bool _ | Obj _ => nan
      | Num _ | Str _ | Arr _ => ToNumber x
      end
  | Arr (_ :: _ :: _) => nan
  | Obj _ => nan
  end.

(** [v == 2]: with a number on the right, [null] and [undefined] are
    never equal to it and everything else is compared as a number. *)
Definition loosely_equals_2 (v : JsVal) : bool :=
  match v with
  | Undefined | Null => false
  | _ => PrimFloat.eqb (ToNumber v) 2%float
  end.

End Coercions.

(** ** The result of the score query ([api/propensity-api]) *)

(** [{value, bucketed}] *)
Record Score : Type := { value : JsVal; bucketed : bool }.

(** One entry of [body.scores]: [{product, score}] or [{product, error}]. *)
Inductive ScoreDetail : Type :=
  | ProductScore (product : JsVal) (score : Score)
  | ProductError (product : JsVal) (error : JsVal).

(** [body]: [{error}] or [{scores}]. *)
Inductive Body : Type :=
  | BodyError (error : JsVal)
  | BodyScores (scores : list ScoreDetail).

(** The object [parsePropensityResponse_] hands back: the empty literal it
    starts from, or [{header: {ok}, body}]. *)
Inductive PropensityScore : Type :=
  | EmptyObject
  | HeaderBody (ok : bool) (body : Body).

(** ** [PropensityServer.parsePropensityResponse_] *)

Abbreviation Result := (Completion JsVal).

Definition bind {A B} (c : Result A) (k : A -> Result B) : Result B :=
  match c with
  | Normal a => k a
  | Throw e => Throw e
  end.

Notation "'let!' x ':=' c 'in' k" := (bind c (fun x => k))
  (at level 10, x name, c at level 100, k at level 200).

Section Parse.

Variable StringToNumber : string -> float.

(** The body of the loop, lines 204-221: the detail built from
    [scores[i]]. *)
Definition scoreDetail_of (result : JsVal) : Result ScoreDetail :=
  let! score := get result "score" in
  let scoreStatus := truthy score in
  if scoreStatus then
    let! score_type := get result "score_type" in
    let value := {| value := score;
                    bucketed := loosely_equals_2 StringToNumber score_type |} in
    let! product := get result "product" in
    Normal (ProductScore product value)
  else
    let! product := get result "product" in
    let! error_message := get result "error_message" in
    Normal (ProductError product error_message).

(** [i < scores.length], with [i] an index the loop has reached. *)
Definition below_length (i : nat) (scores : JsVal) : Result bool :=
  match scores with
  | Arr l => Normal (Nat.ltb i (List.length l))
  | Str s => Normal (Nat.ltb i (String.length s))
  | _ =>
      let! len := get scores "length" in
      Normal (PrimFloat.ltb (nat_to_float i) (ToNumber StringToNumber len))
  end.

(** [for (let i = ...; i < scores.length; i++) { ...; scoreDetails.push(..) }]
    from index [i] on, [scoreDetails] being what was pushed so far.  The
    recursion is on [fuel]; [None] means it ran out. *)
Fixpoint score_loop (fuel i : nat) (scores : JsVal) (scoreDetails : list ScoreDetail)
  : option (Result (list ScoreDetail)) :=
  match fuel with
  | O => None
  | S fuel' =>
      match below_length i scores with
      | Throw e => Some (Throw e)
      | Normal false => Some (Normal scoreDetails)
      | Normal true =>
          match (let! result := get scores (decimal i) in scoreDetail_of result) with
          | Throw e => Some (Throw e)
          | Normal scoreDetail =>
              score_loop fuel' (S i) scores (scoreDetails ++ [scoreDetail])
          end
      end
  end.

Definition parsePropensityResponse_ (fuel : nat) (response : JsVal)
  : option (Result PropensityScore) :=
  let defaultScore := EmptyObject in
  match get response "header" with
  | Throw e => Some (Throw e)
  | Normal header =>
      if negb (truthy header) then
        Some (Normal (HeaderBody false (BodyError (Str "No valid response"))))
      else
        let status := header in
        match get status "ok" with
        | Throw e => Some (Throw e)
        | Normal ok =>
            if truthy ok then
              match get response "scores" with
              | Throw e => Some (Throw e)
              | Normal scores =>
                  match score_loop fuel 0 scores [] with
                  | None => None
                  | Some (Throw e) => Some (Throw e)
                  | Some (Normal scoreDetails) =>
                      (* [if (scoreDetails)]: an array is an object, hence true *)
                      let defaultScore := HeaderBody true (BodyScores scoreDetails) in
                      Some (Normal defaultScore)
                  end
              end
            else
              match get response "error" with
              | Throw e => Some (Throw e)
              | Normal error => Some (Normal (HeaderBody false (BodyError error)))
              end
        end
  end.

(** ** [PropensityServer.getPropensity], from the parsed body on

    The function is [async]: what it returns or throws settles the promise
    its caller holds. *)
Inductive Settled (A : Type) : Type :=
  | Fulfilled (a : A)
  | Rejected (e : Exn JsVal).

Definition getPropensity (fuel : nat) (responseJson : JsVal)
  : option (Settled PropensityScore) :=
  match parsePropensityResponse_ fuel responseJson with
  | None => None
  | Some (Normal score) => Some (Fulfilled _ score)
  | Some (Throw e) => Some (Rejected _ e)
  end.

End Parse.

Arguments Fulfilled {A} a.
Arguments Rejected {A} e.

(** ** The case analysis as section 4.2 of the specification words it *)

(** [r[k]] where the read cannot throw: the property, or [undefined]. *)
Definition field (r : JsVal) (k : string) : JsVal :=
  match get r k with
  | Normal x => x
  | Throw _ => Undefined
  end.

(** A value whose properties can be read: anything but [undefined] and [null]. *)
Definition readable (v : JsVal) : Prop :=
  match v with
  | Undefined | Null => False
  | _ => True
  end.

(** "presence of a truthy [score] field yields a value detail ([value], and
    [bucketed] iff [score_type == 2]); absence yields an error detail
    carrying [error_message]". *)
Definition spec_detail (StringToNumber : string -> float) (entry : JsVal) : ScoreDetail :=
  if truthy (field entry "score") then
    ProductScore (field entry "product")
      {| value := field entry "score";
         bucketed := loosely_equals_2 StringToNumber (field entry "score_type") |}
  else
    ProductError (field entry "product") (field entry "error_message").

Definition no_valid_response : PropensityScore :=
  HeaderBody false (BodyError (Str "No valid response")).

(** A stand-in for [StringToNumber] that knows the decimal spelling of two
    and nothing else; the closed examples below never reach it on any other
    string. *)
Definition spells_two_only (s : string) : float :=
  if String.eqb s "2" then 2%float else nan.

(** The sample response of section 8 of the specification. *)
Definition sample_response : JsVal :=
  Obj [("header", Obj [("ok", Bool true)]);
       ("scores",
         Arr [Obj [("product", Str "a"); ("score", Num 5); ("score_type", Num 2)];
              Obj [("product", Str "b"); ("error_message", Str "x")]])].

(** A header that says [ok] and no [scores] at all. *)
Definition ok_without_scores : JsVal := Obj [("header", Obj [("ok", Bool true)])].

(* ===================================================================== *)
(** * Part II.  Values with identity, the store, and effects *)
(* ===================================================================== *)

(** An event and its parameters are objects the caller shares with every
    consumer, so here an object is a location in a store. *)
Inductive Value : Type :=
  | VUndefined
  | VNull
  | VBool (b : bool)
  | VNum (n : float)
  | VStr (s : string)
  | VFun (f : nat)
  | VRef (l : nat).

(** What kind of object a location holds: an object literal (or an instance
    of an ordinary class), an instance of [EventParams], or an array. *)
Inductive ObjKind : Type := PlainObject | EventParamsObject | ArrayObject.

(** An object: its kind and its own properties, in the order in which they
    were created. *)
Record Object : Type := { kind : ObjKind; properties : list (string * Value) }.

Abbreviation Store := (gmap nat Object).

(** [a === b] *)
Definition strict_equals (a b : Value) : bool :=
  match a, b with
  | VUndefined, VUndefined => true
  | VNull, VNull => true
  | VBool x, VBool y => Bool.eqb x y
  | VNum x, VNum y => PrimFloat.eqb x y
  | VStr x, VStr y => String.eqb x y
  | VFun f, VFun g => Nat.eqb f g
  | VRef l, VRef m => Nat.eqb l m
  | _, _ => false
  end.

(** [v == null] *)
Definition is_nullish (v : Value) : bool :=
  match v with
  | VUndefined | VNull => true
  | _ => false
  end.

(** [ToBoolean] *)
Definition Vtruthy (v : Value) : bool :=
  match v with
  | VUndefined | VNull => false
  | VBool b => b
  | VNum n => negb (PrimFloat.eqb n 0%float || negb (PrimFloat.eqb n n))
  | VStr s => negb (String.eqb s "")
  | VFun _ | VRef _ => true
  end.

Definition kind_of (h : Store) (v : Value) : option ObjKind :=
  match v with
  | VRef l => kind <$> h !! l
  | _ => None
  end.

(** [v instanceof EventParams] *)
Definition instanceof_EventParams (h : Store) (v : Value) : bool :=
  match kind_of h v with
  | Some EventParamsObject => true
  | _ => false
  end.

(** Modelled from the spec: [utils/types] is not among the sources.
    [isObject] holds of a mapping, "not a scalar, not an array-like"; an
    [EventParams] is one, since [logSwgEvent] passes it as the
    [additionalParameters] of an event that must validate. *)
Definition isObject (h : Store) (v : Value) : bool :=
  match kind_of h v with
  | Some PlainObject | Some EventParamsObject => true
  | _ => false
  end.

(** Modelled from the spec: [utils/types] is not among the sources.
    [isBoolean] holds of the two booleans. *)
Definition isBoolean (v : Value) : bool :=
  match v with
  | VBool _ => true
  | _ => false
  end.

(** Modelled from the spec: [utils/types] is not among the sources.
    [isFunction] holds of what can be called. *)
Definition isFunction (v : Value) : bool :=
  match v with
  | VFun _ => true
  | _ => false
  end.

(** Modelled from the spec: [utils/types] is not among the sources.
    [isEnumValue] holds of a value that is a member of the enumeration,
    given here by the list of its values. *)
Definition isEnumValue (enumObj : list Value) (v : Value) : bool :=
  List.existsb (fun member => strict_equals member v) enumObj.

(** [v[k]] for the names the two files read: none of them is a property
    that a primitive, a function or an array has of its own accord. *)
Definition Vget (h : Store) (v : Value) (k : string) : Completion Value Value :=
  match v with
  | VUndefined | VNull => Throw (TypeError ("Cannot read property " ++ k))
  | VRef l =>
      match h !! l with
      | Some o => Normal (default VUndefined (assoc k (properties o)))
      | None => Normal VUndefined
      end
  | _ => Normal VUndefined
  end.

(** [v[k]] where the read cannot throw: the property, or [undefined]. *)
Definition field_of (h : Store) (v : Value) (k : string) : Value :=
  match Vget h v k with
  | Normal x => x
  | Throw _ => VUndefined
  end.

(** A property takes a new value where it stands; a new property comes last. *)
Fixpoint put (k : string) (x : Value) (props : list (string * Value))
  : list (string * Value) :=
  match props with
  | [] => [(k, x)]
  | (k', v) :: rest =>
      if String.eqb k k' then (k, x) :: rest else (k', v) :: put k x rest
  end.

(** [o[k] = x] on an object of the store. *)
Definition set_property (h : Store) (l : nat) (k : string) (x : Value) : Store :=
  match h !! l with
  | Some o => <[l := {| kind := kind o; properties := put k x (properties o) |}]> h
  | None => h
  end.

(** ** Computations with a state that may throw *)

Definition Eff (S A : Type) : Type := S -> Completion Value A * S.

Definition ret {S A} (a : A) : Eff S A := fun s => (Normal a, s).

Definition throw {S A} (e : Exn Value) : Eff S A := fun s => (Throw e, s).

Definition and_then {S A B} (c : Eff S A) (k : A -> Eff S B) : Eff S B :=
  fun s =>
    match c s with
    | (Normal a, s') => k a s'
    | (Throw e, s') => (Throw e, s')
    end.

(** [try { body } catch (e) { handler }] *)
Definition try_catch {S A} (body : Eff S A) (handler : Exn Value -> Eff S A) : Eff S A :=
  fun s =>
    match body s with
    | (Normal a, s') => (Normal a, s')
    | (Throw e, s') => handler e s'
    end.

Definition reads {S A} (f : S -> A) : Eff S A := fun s => (Normal (f s), s).

Definition update {S} (f : S -> S) : Eff S unit := fun s => (Normal tt, f s).

Notation "'let*' x ':=' c 'in' k" := (and_then c (fun x => k))
  (at level 10, x name, c at level 100, k at level 200).

(* ===================================================================== *)
(** * Part III.  [client-event-manager.js] *)
(* ===================================================================== *)

(** What the two files import and the sources do not contain, and what the
    language does that is not spelled out here.  An enumeration is given by
    the list of its values and by those of its members the code names. *)
Class Env : Type := {
  (** [proto/api_messages]: [AnalyticsEvent] *)
  AnalyticsEvent : list Value;
  EVENT_SUBSCRIPTION_STATE : Value;
  (** [proto/api_messages]: [EventOriginator] *)
  EventOriginator : list Value;
  SWG_CLIENT : Value;
  PROPENSITY_CLIENT : Value;
  PUBLISHER_CLIENT : Value;
  AMP_CLIENT : Value;
  SHOWCASE_CLIENT : Value;
  (** [api/client-event-manager-api]: [FilterResult] *)
  PROCESS_EVENT : Value;
  CANCEL_EVENT : Value;
  (** [runtime/event-type-mapping] *)
  analyticsEventToPublisherEvent : Value -> Value;
  (** [runtime/services] and [utils/url] *)
  adsUrl : string -> string;
  addQueryParam : string -> string -> string -> string;
  (** [ToString] and [JSON.stringify] of the language *)
  ToString : Store -> Value -> string;
  JSON_stringify : Store -> Value -> Completion Value Value;
  (** What each function value does when it is called: it may read and
      write the store, and returns or throws.  A consumer does not reach the
      registries of the manager that calls it. *)
  behaviour : nat -> list Value -> Store -> Completion Value Value * Store;
}.

(** In which capacity the manager called a consumer. *)
Inductive Role : Type := AsFilterer | AsListener.

(** One call of a consumer by the manager: its place in the registry, what
    it was given and how it completed. *)
Record Call : Type := {
  role : Role;
  position : nat;
  arguments : list Value;
  outcome : Completion Value Value;
}.

(** An activation of [handleEvent_] suspended at [await this.isReadyPromise_]. *)
Record Activation : Type := { act_event : Value; act_eventParams : Value }.

(** The fields of a [ClientEventManager]. *)
Record ClientEventManager : Type := {
  listeners_ : list Value;
  filterers_ : list Value;
  lastAction_ : option Activation;
}.

(** What a run of the manager acts on: the store its consumers share with
    the caller, what [log] was given, the calls made so far, and the
    activations still waiting for the readiness promise. *)
Record World : Type := {
  store : Store;
  console : list (Exn Value);
  invoked : list Call;
  awaiting : list Activation;
}.

Definition with_store (h : Store) (w : World) : World :=
  {| store := h; console := console w; invoked := invoked w; awaiting := awaiting w |}.

Definition record_call (c : Call) (w : World) : World :=
  {| store := store w; console := console w; invoked := invoked w ++ [c];
     awaiting := awaiting w |}.

Definition suspend (a : Activation) (w : World) : World :=
  {| store := store w; console := console w; invoked := invoked w;
     awaiting := awaiting w ++ [a] |}.

(** [log(e)] of [utils/log]: the diagnostic sink. *)
Definition log (e : Exn Value) : Eff World unit :=
  update (fun w => {| store := store w; console := console w ++ [e];
                      invoked := invoked w; awaiting := awaiting w |}).

(** The constructor: [new ClientEventManager(configuredPromise)]. *)
Definition new_ClientEventManager : ClientEventManager :=
  {| listeners_ := []; filterers_ := []; lastAction_ := None |}.

(** The exceptions a sequence of calls ended with, in order. *)
Definition thrown_by (calls : list Call) : list (Exn Value) :=
  List.flat_map
    (fun c => match outcome c with Throw e => [e] | Normal _ => [] end) calls.

(** The calls a computation added to the trace. *)
Definition calls_of {A} (c : Eff World A) (w : World) : list Call :=
  List.skipn (List.length (invoked w)) (invoked (snd (c w))).

(** [w'] is [w] after the calls [calls]: they are appended to the trace, what
    they threw is appended to the sink, and nothing is suspended or resumed. *)
Definition grows (w w' : World) (calls : list Call) : Prop :=
  invoked w' = invoked w ++ calls
  /\ console w' = console w ++ thrown_by calls
  /\ awaiting w' = awaiting w.

(** The calls of the filterers from place [pos] on. *)
Definition filterer_calls (pos : nat) (event : Value) (calls : list Call) : Prop :=
  forall n c, List.nth_error calls n = Some c ->
    role c = AsFilterer /\ position c = pos + n /\ arguments c = [event].

(** The calls of the listeners from place [pos] on. *)
Definition listener_calls (pos : nat) (event eventParams : Value) (calls : list Call) : Prop :=
  forall n c, List.nth_error calls n = Some c ->
    role c = AsListener /\ position c = pos + n /\ arguments c = [event; eventParams].

Section EventManager.

Context {env : Env}.

Definition createEventErrorMessage (h : Store) (valueName : string) (v : Value) : string :=
  "Event has an invalid " ++ valueName ++ "(" ++ ToString h v ++ ")".

(** [validateEvent(event)]: throws an error if the event is invalid. *)
Definition validateEvent (h : Store) (event : Value) : Completion Value unit :=
  if negb (isObject h event) then Throw (Error "Event must be a valid object")
  else
    match Vget h event "eventType" with
    | Throw e => Throw e
    | Normal eventType =>
    if negb (isEnumValue AnalyticsEvent eventType) then
      Throw (Error (createEventErrorMessage h "eventType" eventType))
    else
    match Vget h event "eventOriginator" with
    | Throw e => Throw e
    | Normal eventOriginator =>
    if negb (isEnumValue EventOriginator eventOriginator) then
      Throw (Error (createEventErrorMessage h "eventOriginator" eventOriginator))
    else
    match Vget h event "additionalParameters" with
    | Throw e => Throw e
    | Normal additionalParameters =>
    if negb (isObject h additionalParameters) && negb (is_nullish additionalParameters) then
      Throw (Error (createEventErrorMessage h "additionalParameters" additionalParameters))
    else
    match Vget h event "isFromUserAction" with
    | Throw e => Throw e
    | Normal isFromUserAction =>
    if negb (is_nullish isFromUserAction) && negb (isBoolean isFromUserAction) then
      Throw (Error (createEventErrorMessage h "isFromUserAction" isFromUserAction))
    else Normal tt
    end end end end.

(** [ClientEventManager.isPublisherEvent(event)] *)
Definition isPublisherEvent (h : Store) (event : Value) : Completion Value bool :=
  match Vget h event "eventOriginator" with
  | Throw e => Throw e
  | Normal eventOriginator =>
      Normal (strict_equals eventOriginator PROPENSITY_CLIENT
              || strict_equals eventOriginator PUBLISHER_CLIENT
              || strict_equals eventOriginator AMP_CLIENT)
  end.

(** [registerEventListener(listener)] *)
Definition registerEventListener (listener : Value) (m : ClientEventManager)
  : Completion Value ClientEventManager :=
  if negb (isFunction listener) then
    Throw (Error "Event manager listeners must be a function")
  else
    Normal {| listeners_ := listeners_ m ++ [listener];
              filterers_ := filterers_ m;
              lastAction_ := lastAction_ m |}.

(** [registerEventFilterer(filterer)] *)
Definition registerEventFilterer (filterer : Value) (m : ClientEventManager)
  : Completion Value ClientEventManager :=
  if negb (isFunction filterer) then
    Throw (Error "Event manager filterers must be a function")
  else
    Normal {| listeners_ := listeners_ m;
              filterers_ := filterers_ m ++ [filterer];
              lastAction_ := lastAction_ m |}.

(** [f(args)], noted in the trace.  Calling what is not a function throws. *)
Definition call (r : Role) (pos : nat) (f : Value) (args : list Value) : Eff World Value :=
  fun w =>
    let (result, h) :=
      match f with
      | VFun id => behaviour id args (store w)
      | _ => (Throw (TypeError "not a function"), store w)
      end in
    (result,
     record_call {| role := r; position := pos; arguments := args; outcome := result |}
       (with_store h w)).

(** Lines 141-149.  The result tells whether the function returned from
    inside the loop. *)
Fixpoint for_filterers (filterers : list Value) (pos : nat) (event : Value)
  : Eff World bool :=
  match filterers with
  | [] => ret false
  | filterer :: rest =>
      let* returned :=
        try_catch
          (let* verdict := call AsFilterer pos filterer [event] in
           ret (strict_equals verdict CANCEL_EVENT))
          (fun e => let* _ := log e in ret false) in
      if (returned : bool) then ret true
      else for_filterers rest (S pos) event
  end.

(** Lines 152-158. *)
Fixpoint for_listeners (listeners : list Value) (pos : nat) (event eventParams : Value)
  : Eff World unit :=
  match listeners with
  | [] => ret tt
  | listener :: rest =>
      let* _ :=
        try_catch
          (let* _ := call AsListener pos listener [event; eventParams] in ret tt)
          (fun e => log e) in
      for_listeners rest (S pos) event eventParams
  end.

(** [handleEvent_], the part that runs once the readiness promise has
    resolved. *)
Definition handleEvent_resume (m : ClientEventManager) (a : Activation) : Eff World unit :=
  let* returned := for_filterers (filterers_ m) 0 (act_event a) in
  if (returned : bool) then ret tt
  else for_listeners (listeners_ m) 0 (act_event a) (act_eventParams a).

(** [handleEvent_(event, eventParams)], the call: an [async] function runs
    up to its first [await] and hands back its promise. *)
Definition handleEvent_ (event eventParams : Value) : Eff World Activation :=
  let a := {| act_event := event; act_eventParams := eventParams |} in
  let* _ := update (suspend a) in
  ret a.

(** [logEvent(event, eventParams)] *)
Definition logEvent (m : ClientEventManager) (event eventParams : Value)
  : Eff World ClientEventManager :=
  let* _ := (fun w => (validateEvent (store w) event, w)) in
  let* promise := handleEvent_ event eventParams in
  ret {| listeners_ := listeners_ m;
         filterers_ := filterers_ m;
         lastAction_ := Some promise |}.

(** The value of a parameter declared with a default: the default stands in
    for an argument that is [undefined]. *)
Definition or_default (given default : Value) : Value :=
  match given with
  | VUndefined => default
  | _ => given
  end.

(** [logSwgEvent(eventType, isFromUserAction = false, eventParams = null)]:
    the event is a new object of the store. *)
Definition logSwgEvent (m : ClientEventManager) (eventType isFromUserAction eventParams : Value)
  : Eff World ClientEventManager :=
  let isFromUserAction := or_default isFromUserAction (VBool false) in
  let eventParams := or_default eventParams VNull in
  let* event :=
    (fun w =>
       let l := fresh (dom (store w)) in
       let o := {| kind := PlainObject;
                   properties :=
                     [("eventType", eventType);
                      ("eventOriginator", SWG_CLIENT);
                      ("isFromUserAction", isFromUserAction);
                      ("additionalParameters", eventParams)] |} in
       (Normal (VRef l), with_store (<[l := o]> (store w)) w)) in
  logEvent m event VUndefined.

(** One turn of the job queue after the readiness promise has resolved: the
    oldest waiting activation runs to its end. *)
Definition run_next (m : ClientEventManager) (w : World) : Completion Value unit * World :=
  match awaiting w with
  | [] => (Normal tt, w)
  | a :: rest =>
      handleEvent_resume m a
        {| store := store w; console := console w; invoked := invoked w;
           awaiting := rest |}
  end.

(** Whether a call handed back the cancelling verdict. *)
Definition returned_cancel (c : Call) : bool :=
  match outcome c with
  | Normal verdict => strict_equals verdict CANCEL_EVENT
  | Throw _ => false
  end.

(** Whether the run of [handleEvent_] left through the [return] of line 144. *)
Definition dispatch_cancelled (m : ClientEventManager) (a : Activation) (w : World) : bool :=
  match fst (for_filterers (filterers_ m) 0 (act_event a) w) with
  | Normal returned => returned
  | Throw _ => false
  end.

(** What the loop over the filterers amounts to: it never throws; it calls
    the filterers in order from the first one; it stops after the first call
    that hands back the cancelling verdict and at no other call. *)
Definition filterers_outcome (filterers : list Value) (returned : bool)
    (calls : list Call) : Prop :=
  List.length calls <= List.length filterers
  /\ (returned = false ->
      List.length calls = List.length filterers
      /\ forall c, List.In c calls -> returned_cancel c = false)
  /\ (returned = true ->
      exists before c,
        calls = before ++ [c] /\ returned_cancel c = true
        /\ forall c', List.In c' before -> returned_cancel c' = false).

(** The words of the specification for an invalid event: it is not an
    object, or its type or its originator is no member of its enumeration,
    or its parameters are present without being a mapping, or its
    user-action mark is present without being a boolean. *)
Definition invalid_event (h : Store) (event : Value) : Prop :=
  isObject h event = false
  \/ isEnumValue AnalyticsEvent (field_of h event "eventType") = false
  \/ isEnumValue EventOriginator (field_of h event "eventOriginator") = false
  \/ (is_nullish (field_of h event "additionalParameters") = false
      /\ isObject h (field_of h event "additionalParameters") = false)
  \/ (is_nullish (field_of h event "isFromUserAction") = false
      /\ isBoolean (field_of h event "isFromUserAction") = false).

End EventManager.

(* ===================================================================== *)
(** * Part IV.  [propensity-server.js] *)
(* ===================================================================== *)

(** ** The cookie pattern and [encodeURIComponent] *)

Local Open Scope char_scope.

(** [\s], among the code units below 256. *)
Definition is_space (c : ascii) : bool :=
  let n := nat_of_ascii c in
  (Nat.leb 9 n && Nat.leb n 13) || Nat.eqb n 32 || Nat.eqb n 160.

Definition not_semicolon (c : ascii) : bool := negb (Ascii.eqb c ";").

(** The longest run of characters with [p] at the start of [s], and the rest. *)
Fixpoint span (p : ascii -> bool) (s : list ascii) : list ascii * list ascii :=
  match s with
  | c :: s' =>
      if p c then let (run, rest) := span p s' in (c :: run, rest)
      else ([], s)
  | [] => ([], [])
  end.

Fixpoint strip_prefix (prefix s : list ascii) : option (list ascii) :=
  match prefix, s with
  | [], _ => Some s
  | p :: prefix', c :: s' => if Ascii.eqb p c then strip_prefix prefix' s' else None
  | _ :: _, [] => None
  end.

Definition gads : list ascii := ["_"; "_"; "g"; "a"; "d"; "s"].

(** [\s*__gads\s*=\s*([^;]+)] at the start of [s]: what is matched before
    the group, and the group.  Each [\s*] takes all the spaces there are; the
    last one gives its last space back to the group when nothing else is left
    for it. *)
Definition match_tail (s : list ascii) : option (list ascii * list ascii) :=
  let (sp1, s1) := span is_space s in
  match strip_prefix gads s1 with
  | None => None
  | Some s2 =>
      let (sp2, s3) := span is_space s2 in
      match s3 with
      | "=" :: s4 =>
          let (sp3, s5) := span is_space s4 in
          let (run, _) := span not_semicolon s5 in
          match run with
          | _ :: _ => Some (sp1 ++ gads ++ sp2 ++ ["="] ++ sp3, run)
          | [] =>
              match List.rev sp3 with
              | c :: before => Some (sp1 ++ gads ++ sp2 ++ ["="] ++ List.rev before, [c])
              | [] => None
              end
          end
      | _ => None
      end
  end.

(** The pattern at one position: [(^|;)] takes the start of the string if
    this is it, and a semicolon otherwise.  The result is the array of the
    match: the text matched, then the two groups. *)
Definition match_here (at_start : bool) (s : list ascii) : option (list string) :=
  match (if at_start then match_tail s else None) with
  | Some (before, group) =>
      Some [string_of_list_ascii (before ++ group); ""%string;
            string_of_list_ascii group]
  | None =>
      match s with
      | ";" :: s' =>
          match match_tail s' with
          | Some (before, group) =>
              Some [string_of_list_ascii (";" :: before ++ group); ";"%string;
                    string_of_list_ascii group]
          | None => None
          end
      | _ => None
      end
  end.

(** The leftmost position at which the pattern matches. *)
Fixpoint search (at_start : bool) (s : list ascii) : option (list string) :=
  match match_here at_start s with
  | Some m => Some m
  | None =>
      match s with
      | [] => None
      | _ :: s' => search false s'
      end
  end.

(** [cookie.match('(^|;)\\s*__gads\\s*=\\s*([^;]+)')] *)
Definition match_gads (cookie : string) : option (list string) :=
  search true (list_ascii_of_string cookie).

(** [m.pop()] on the array of a match. *)
Definition pop (m : list string) : string := List.last m ""%string.

Definition unreserved (c : ascii) : bool :=
  let n := nat_of_ascii c in
  (Nat.leb 65 n && Nat.leb n 90) || (Nat.leb 97 n && Nat.leb n 122)
  || (Nat.leb 48 n && Nat.leb n 57)
  || List.existsb (Ascii.eqb c) ["-"; "_"; "."; "!"; "~"; "*"; "'"; "("; ")"].

Definition hex_digit (n : nat) : ascii :=
  List.nth n ["0"; "1"; "2"; "3"; "4"; "5"; "6"; "7"; "8"; "9";
              "A"; "B"; "C"; "D"; "E"; "F"] "0".

Definition percent (n : nat) : string :=
  String "%" (String (hex_digit (n / 16)) (String (hex_digit (n mod 16)) EmptyString)).

(** One code unit below 256: itself when unreserved, else the bytes of its
    UTF-8 encoding, each escaped. *)
Definition encode_unit (c : ascii) : string :=
  let n := nat_of_ascii c in
  if unreserved c then String c EmptyString
  else if Nat.ltb n 128 then percent n
  else (percent (192 + n / 64) ++ percent (128 + n mod 64))%string.

Fixpoint encodeURIComponent (s : string) : string :=
  match s with
  | EmptyString => EmptyString
  | String c s' => (encode_unit c ++ encodeURIComponent s')%string
  end.

Local Close Scope char_scope.

(** ** The server and what surrounds it *)

(** The fields of a [PropensityServer]; [clientId_] is [null] or a string. *)
Record PropensityServer : Type := {
  publicationId_ : string;
  clientId_ : option string;
  version_ : nat;
}.

(** What the server reads from its surroundings at each call:
    [win.document.cookie], [win.location.hostname] and
    [deps.config().enablePropensity]. *)
Record Ambient : Type := {
  document_cookie : string;
  location_hostname : string;
  enablePropensity : Value;
}.

(** What [fetcher.fetch(url, init)] was given. *)
Record Request : Type := { url : string; method : string; credentials : string }.

(** A call of one of the two methods that report to the server. *)
Inductive Report : Type :=
  | SubscriptionStateReport (state productsOrSkus : Value)
  | EventReport (event context : Value).

(** What a run of the server acts on: its own fields, the store, the requests
    handed to the fetcher and the reports made, in order. *)
Record ServerWorld : Type := {
  server : PropensityServer;
  heap : Store;
  fetched : list Request;
  reports : list Report;
}.

(** The constructor, registration with the event manager apart. *)
Definition new_PropensityServer (publicationId : string) : PropensityServer :=
  {| publicationId_ := publicationId; clientId_ := None; version_ := 1 |}.

(** [ToBoolean] of a field that is [null] or a string. *)
Definition truthy_id (id : option string) : bool :=
  match id with
  | None => false
  | Some s => negb (String.eqb s "")
  end.

(** [getDocumentCookie_()] *)
Definition getDocumentCookie_ (amb : Ambient) : string := document_cookie amb.

(** [getClientId_()] *)
Definition getClientId_ (amb : Ambient) : Eff ServerWorld (option string) :=
  fun s =>
    if negb (truthy_id (clientId_ (server s))) then
      let gadsmatch := match_gads (getDocumentCookie_ amb) in
      let id :=
        match gadsmatch with
        | None => None
        | Some m => Some (encodeURIComponent (pop m))
        end in
      let s' := {| server := {| publicationId_ := publicationId_ (server s);
                                clientId_ := id;
                                version_ := version_ (server s) |};
                   heap := heap s; fetched := fetched s; reports := reports s |} in
      (Normal (clientId_ (server s')), s')
    else (Normal (clientId_ (server s)), s).

(** [fetcher_.fetch(url, init)]: the request leaves; its promise is not
    waited for. *)
Definition fetch (u : string) (init : string * string) : Eff ServerWorld unit :=
  update (fun s =>
    {| server := server s; heap := heap s;
       fetched := fetched s ++ [{| url := u; method := fst init; credentials := snd init |}];
       reports := reports s |}).

Definition note (r : Report) : Eff ServerWorld unit :=
  update (fun s =>
    {| server := server s; heap := heap s; fetched := fetched s;
       reports := reports s ++ [r] |}).

(** A new object in the store: [{}]. *)
Definition new_object : Eff ServerWorld Value :=
  fun s =>
    let l := fresh (dom (heap s)) in
    (Normal (VRef l),
     {| server := server s;
        heap := <[l := {| kind := PlainObject; properties := [] |}]> (heap s);
        fetched := fetched s; reports := reports s |}).

(** [o[k] = x] *)
Definition assign (o : Value) (k : string) (x : Value) : Eff ServerWorld unit :=
  match o with
  | VRef l =>
      update (fun s =>
        {| server := server s; heap := set_property (heap s) l k x;
           fetched := fetched s; reports := reports s |})
  | VUndefined | VNull => throw (TypeError ("Cannot set property " ++ k))
  | _ => ret tt
  end.

(** What [getClientId_()] derives from a cookie string. *)
Definition derived (cookie : string) : option string :=
  match match_gads cookie with
  | None => None
  | Some m => Some (encodeURIComponent (pop m))
  end.

(** The fields of the server after [getClientId_()]. *)
Definition resolved (amb : Ambient) (srv : PropensityServer) : PropensityServer :=
  if truthy_id (clientId_ srv) then srv
  else {| publicationId_ := publicationId_ srv;
          clientId_ := match match_gads (document_cookie amb) with
                       | None => None
                       | Some m => Some (encodeURIComponent (pop m))
                       end;
          version_ := version_ srv |}.

Definition with_flag (flag : Value) (amb : Ambient) : Ambient :=
  {| document_cookie := document_cookie amb;
     location_hostname := location_hostname amb;
     enablePropensity := flag |}.

Definition with_heap (h : Store) (s : ServerWorld) : ServerWorld :=
  {| server := server s; heap := h; fetched := fetched s; reports := reports s |}.

(** What [handleClientEvent_] hands to [JSON.stringify], and the store it
    leaves, as the code has it: an [EventParams] is dropped; a boolean
    [isFromUserAction] is written as [is_active] into the parameters
    themselves when they are an object, and into a new object otherwise. *)
Definition prepared (h : Store) (additionalParameters isFromUserAction : Value)
  : Value * Store :=
  let parameters :=
    if instanceof_EventParams h additionalParameters then VUndefined
    else additionalParameters in
  if isBoolean isFromUserAction then
    if isObject h parameters then
      match parameters with
      | VRef l => (parameters, set_property h l "is_active" isFromUserAction)
      | _ => (parameters, h)
      end
    else
      let l := fresh (dom h) in
      (VRef l,
       set_property (<[l := {| kind := PlainObject; properties := [] |}]> h)
         l "is_active" isFromUserAction)
  else (parameters, h).

Section Server.

Context {env : Env}.

(** [propensityUrl_(url)] *)
Definition propensityUrl_ (amb : Ambient) (u : string) : Eff ServerWorld string :=
  let u := addQueryParam u "u_tz" "240" in
  let* version := reads (fun s => version_ (server s)) in
  let u := addQueryParam u "v" (decimal version) in
  let* clientId := getClientId_ amb in
  let u :=
    match clientId with
    | Some id => if truthy_id clientId then addQueryParam u "cookie" id else u
    | None => u
    end in
  let u := addQueryParam u "cdm" (location_hostname amb) in
  ret u.

(** [sendSubscriptionState(state, productsOrSkus)] *)
Definition sendSubscriptionState (amb : Ambient) (state productsOrSkus : Value)
  : Eff ServerWorld unit :=
  let* _ := note (SubscriptionStateReport state productsOrSkus) in
  let init := ("GET", "include") in
  let u := adsUrl "/subopt/data" in
  let* h := reads heap in
  let* publicationId := reads (fun s => publicationId_ (server s)) in
  let u := addQueryParam u "states" (publicationId ++ ":" ++ ToString h state)%string in
  let u :=
    if Vtruthy productsOrSkus then addQueryParam u "extrainfo" (ToString h productsOrSkus)
    else u in
  let* u := propensityUrl_ amb u in
  fetch u init.

(** [sendEvent_(event, context)] *)
Definition sendEvent_ (amb : Ambient) (event context : Value) : Eff ServerWorld unit :=
  let* _ := note (EventReport event context) in
  let init := ("GET", "include") in
  let u := adsUrl "/subopt/data" in
  let* h := reads heap in
  let* publicationId := reads (fun s => publicationId_ (server s)) in
  let u := addQueryParam u "events" (publicationId ++ ":" ++ ToString h event)%string in
  let u :=
    if Vtruthy context then addQueryParam u "extrainfo" (ToString h context)
    else u in
  let* u := propensityUrl_ amb u in
  fetch u init.

(** [e[k]] in the store as it is now. *)
Definition read (v : Value) (k : string) : Eff ServerWorld Value :=
  fun s => (Vget (heap s) v k, s).

(** [handleClientEvent_(event)], lines 156-181: what is done with an event
    that the two gates let through. *)
Definition report_event (amb : Ambient) (event : Value) : Eff ServerWorld unit :=
  let* eventType := read event "eventType" in
  if strict_equals eventType EVENT_SUBSCRIPTION_STATE then
    let* parameters := read event "additionalParameters" in
    let* state := read parameters "state" in
    let* productsOrSkus := read parameters "productsOrSkus" in
    sendSubscriptionState amb state productsOrSkus
  else
  let propEvent := analyticsEventToPublisherEvent eventType in
  if is_nullish propEvent then ret tt
  else
  let* additionalParameters := read event "additionalParameters" in
  let* isEventParams := reads (fun s => instanceof_EventParams (heap s) additionalParameters) in
  let additionalParameters :=
    if (isEventParams : bool) then VUndefined else additionalParameters in
  let* isFromUserAction := read event "isFromUserAction" in
  let* additionalParameters :=
    if isBoolean isFromUserAction then
      let* is_object := reads (fun s => isObject (heap s) additionalParameters) in
      let* additionalParameters :=
        if (is_object : bool) then ret additionalParameters else new_object in
      let* _ := assign additionalParameters "is_active" isFromUserAction in
      ret additionalParameters
    else ret additionalParameters in
  let* context := (fun s => (JSON_stringify (heap s) additionalParameters, s)) in
  sendEvent_ amb propEvent context.

(** [handleClientEvent_(event)]: the two gates of lines 141-154, then the
    rest. *)
Definition handleClientEvent_ (amb : Ambient) (event : Value) : Eff ServerWorld unit :=
  let* eventOriginator := read event "eventOriginator" in
  if strict_equals eventOriginator SHOWCASE_CLIENT then ret tt
  else
  if negb (Vtruthy (enablePropensity amb))
     && negb (strict_equals eventOriginator PROPENSITY_CLIENT)
  then ret tt
  else report_event amb event.

(** [getPropensity(referrer, type)], up to the request; what comes back is
    parsed by [getPropensity] of Part I. *)
Definition getPropensity_request (amb : Ambient) (referrer type : string)
  : Eff ServerWorld unit :=
  let init := ("GET", "include") in
  let* publicationId := reads (fun s => publicationId_ (server s)) in
  let u := (adsUrl "/subopt/pts?products=" ++ publicationId ++ "&type=" ++ type
            ++ "&ref=" ++ referrer)%string in
  let* u := propensityUrl_ amb u in
  fetch u init.

End Server.


(** ** An environment for the closed examples *)

Definition quote : string := String (ascii_of_nat 34) EmptyString.

Definition join (parts : list string) : string :=
  match parts with
  | [] => EmptyString
  | p :: rest => List.fold_left (fun acc q => (acc ++ "," ++ q)%string) rest p
  end.

(** The JSON text of the values the examples serialise: [null], booleans,
    strings with nothing to escape, and objects made of these.  [None] where
    [JSON.stringify] writes nothing; numbers and arrays are beyond it. *)
Fixpoint sample_text (fuel : nat) (h : Store) (v : Value) : option string :=
  match v with
  | VUndefined | VFun _ => None
  | VNull | VNum _ => Some "null"%string
  | VBool b => Some (if b then "true" else "false")%string
  | VStr s => Some (quote ++ s ++ quote)%string
  | VRef l =>
      match fuel, h !! l with
      | S fuel', Some o =>
          Some ("{" ++ join (List.flat_map
                               (fun kv => match sample_text fuel' h (snd kv) with
                                          | Some t => [(quote ++ fst kv ++ quote ++ ":" ++ t)%string]
                                          | None => []
                                          end)
                               (properties o)) ++ "}")%string
      | _, _ => Some "{}"%string
      end
  end.

(** Two small enumerations with numeric codes, one event type with a
    publisher event and one without, and four function values: one that lets
    the event through, one that cancels, one that throws and one that returns
    nothing.  The string conversion is that of strings. *)
Definition sample_env : Env := {|
  AnalyticsEvent := [VNum 1; VNum 2; VNum 3];
  EVENT_SUBSCRIPTION_STATE := VNum 3;
  EventOriginator := [VNum 1; VNum 2; VNum 3; VNum 5; VNum 6];
  SWG_CLIENT := VNum 1;
  AMP_CLIENT := VNum 2;
  PROPENSITY_CLIENT := VNum 3;
  PUBLISHER_CLIENT := VNum 5;
  SHOWCASE_CLIENT := VNum 6;
  PROCESS_EVENT := VNum 0;
  CANCEL_EVENT := VNum 1;
  analyticsEventToPublisherEvent :=
    fun eventType =>
      if strict_equals eventType (VNum 1) then VStr "paywall" else VNull;
  adsUrl := fun path => ("https://ads.example" ++ path)%string;
  addQueryParam :=
    fun u k v =>
      (u ++ (if List.existsb (Ascii.eqb "?"%char) (list_ascii_of_string u)
             then "&" else "?")
         ++ encodeURIComponent k ++ "=" ++ encodeURIComponent v)%string;
  ToString := fun _ v => match v with VStr s => s | _ => ""%string end;
  JSON_stringify := fun h v => match sample_text 8 h v with
                                | Some t => Normal (VStr t)
                                | None => Normal VUndefined
                                end;
  behaviour :=
    fun id _ h =>
      match id with
      | 0 => (Normal (VNum 0), h)
      | 1 => (Normal (VNum 1), h)
      | 2 => (Throw (Error "fault"), h)
      | _ => (Normal VUndefined, h)
      end;
|}.

(** An object literal. *)
Definition object (props : list (string * Value)) : Object :=
  {| kind := PlainObject; properties := props |}.

(** The store of the examples: at 1 an event of the propensity client with a
    publisher event, raised by the user, whose parameters are the object at
    2; at 3 a subscription-state event with its parameters at 4; at 5 an
    event of the showcase client; at 6 an event of the core client whose
    parameters are the [EventParams] at 7; at 8 an event of no known type. *)
Definition sample_store : Store :=
  list_to_map
    [(1, object [("eventType", VNum 1); ("eventOriginator", VNum 3);
                 ("isFromUserAction", VBool true); ("additionalParameters", VRef 2)]);
     (2, object [("label", VStr "x")]);
     (3, object [("eventType", VNum 3); ("eventOriginator", VNum 3);
                 ("isFromUserAction", VNull); ("additionalParameters", VRef 4)]);
     (4, object [("state", VStr "s"); ("productsOrSkus", VStr "p")]);
     (5, object [("eventType", VNum 1); ("eventOriginator", VNum 6);
                 ("isFromUserAction", VNull); ("additionalParameters", VNull)]);
     (6, object [("eventType", VNum 1); ("eventOriginator", VNum 1);
                 ("isFromUserAction", VNull); ("additionalParameters", VRef 7)]);
     (7, {| kind := EventParamsObject; properties := [("sku", VStr "basic")] |});
     (8, object [("eventType", VNum 99); ("eventOriginator", VNum 1)])].

Definition sample_world : World :=
  {| store := sample_store; console := []; invoked := []; awaiting := [] |}.

(** A manager with four filterers (the second throws, the third cancels) and
    two listeners (the first throws), and one whose third filterer returns
    nothing instead of cancelling. *)
Definition cancelling_manager : ClientEventManager :=
  {| listeners_ := [VFun 2; VFun 3];
     filterers_ := [VFun 0; VFun 2; VFun 1; VFun 0];
     lastAction_ := None |}.

Definition proceeding_manager : ClientEventManager :=
  {| listeners_ := [VFun 2; VFun 3];
     filterers_ := [VFun 0; VFun 2; VFun 3];
     lastAction_ := None |}.

Definition sample_activation : Activation :=
  {| act_event := VRef 1; act_eventParams := VUndefined |}.

Definition sample_ambient (cookie : string) (flag : Value) : Ambient :=
  {| document_cookie := cookie; location_hostname := "news.example";
     enablePropensity := flag |}.

Definition sample_server_world : ServerWorld :=
  {| server := new_PropensityServer "pub1"; heap := sample_store;
     fetched := []; reports := [] |}.

(* ===================================================================== *)
(** * Part V.  Measures and runs used by the further properties *)
(* ===================================================================== *)

(** How many entries of [scores] the loop of the parser can get past. *)
Definition visits (scores : JsVal) : nat :=
  match scores with
  | Arr l => List.length l
  | Str s => String.length s
  | Obj props => List.length props
  | _ => 0
  end.

(** Fuel that is enough for [parsePropensityResponse_] on [response]. *)
Definition enough_fuel (response : JsVal) : nat := S (visits (field response "scores")).

(** The loop has got to index [i]: every entry before it was there. *)
Definition reached (scores : JsVal) (i : nat) : Prop :=
  match scores with
  | Arr l => i <= List.length l
  | Str s => i <= String.length s
  | Obj props => forall j, j < i -> assoc (decimal j) props <> None
  | _ => i = 0
  end.

(** A client that registers consumers one after the other, as listeners or
    as filterers, and goes on when a registration throws. *)
Fixpoint register_all {env : Env} (requests : list (Role * Value)) (m : ClientEventManager)
  : ClientEventManager :=
  match requests with
  | [] => m
  | (r, consumer) :: rest =>
      let registered :=
        match r with
        | AsListener => registerEventListener consumer m
        | AsFilterer => registerEventFilterer consumer m
        end in
      match registered with
      | Normal m' => register_all rest m'
      | Throw _ => register_all rest m
      end
  end.

(** The functions among the consumers asked to be registered in role [r], in
    the order of the requests. *)
Definition accepted (r : Role) (requests : list (Role * Value)) : list Value :=
  List.map snd
    (List.filter
       (fun request =>
          match fst request, r with
          | AsListener, AsListener | AsFilterer, AsFilterer => isFunction (snd request)
          | _, _ => false
          end)
       requests).

(** Whether an evaluation completed without an exception. *)
Definition is_normal_run {A : Type} (c : Completion Value A) : bool :=
  match c with
  | Normal _ => true
  | Throw _ => false
  end.

(** What a run of the server may have done to the requests and the reports:
    nothing, or one request and one report more, the run then having ended
    normally and the client identifier having been looked up.  The
    publication and the version stay what they are. *)
Definition request_effect (amb : Ambient) (s : ServerWorld)
    (run : Completion Value unit * ServerWorld) : Prop :=
  let s' := snd run in
  publicationId_ (server s') = publicationId_ (server s)
  /\ version_ (server s') = version_ (server s)
  /\ ((fetched s' = fetched s /\ reports s' = reports s /\ server s' = server s)
      \/ (fst run = Normal tt
          /\ server s' = resolved amb (server s)
          /\ exists request report,
               fetched s' = fetched s ++ [request]
               /\ reports s' = reports s ++ [report]
               /\ method request = "GET" /\ credentials request = "include")).

(** The same page with another cookie string. *)
Definition with_cookie (cookie : string) (amb : Ambient) : Ambient :=
  {| document_cookie := cookie;
     location_hostname := location_hostname amb;
     enablePropensity := enablePropensity amb |}.


(** The server of the examples with, at 9, a subscription-state event of
    the propensity client that carries no parameters. *)
Definition world_with_bare_state_event : ServerWorld :=
  {| server := new_PropensityServer "pub1";
     heap := <[9 := object [("eventType", VNum 3); ("eventOriginator", VNum 3);
                            ("isFromUserAction", VNull);
                            ("additionalParameters", VNull)]]> sample_store;
     fetched := []; reports := [] |}.

(** The server of the examples once it has read its identifier from the
    cookie [__gads=abc]. *)
Definition world_with_known_client : ServerWorld :=
  {| server := resolved (sample_ambient "__gads=abc" (VBool true))
                 (new_PropensityServer "pub1");
     heap := sample_store; fetched := []; reports := [] |}.
(* ===================================================================== *)
(** * Theorems *)
(* ===================================================================== *)

(** ** Reading properties *)

Lemma get_readable (v : JsVal) (k : string) :
  readable v -> get v k = Normal (field v k).
Proof.
  unfold field. destruct v; simpl; try contradiction; intros _;
    repeat match goal with
           | |- context [if ?b then _ else _] => destruct b
           | |- context [match ?o with Some _ => _ | None => _ end] => destruct o
           end; reflexivity.
Qed.

Lemma decimal_inj (i j : nat) : decimal i = decimal j -> i = j.
Proof.
  unfold decimal. intros H.
  apply Unsigned.to_uint_inj.
  assert (Hs : Some (Nat.to_uint i) = Some (Nat.to_uint j)).
  { rewrite <- !NilEmpty.usu. now rewrite H. }
  now injection Hs.
Qed.

Lemma decimal_not_length (i : nat) : String.eqb (decimal i) "length" = false.
Proof.
  apply String.eqb_neq. intros H.
  assert (Hs : NilEmpty.uint_of_string (decimal i) = NilEmpty.uint_of_string "length")
    by now rewrite H.
  unfold decimal in Hs. rewrite NilEmpty.usu in Hs. discriminate Hs.
Qed.

Lemma find_decimal (i start len : nat) :
  start <= i < start + len ->
  List.find (fun j => String.eqb (decimal j) (decimal i)) (List.seq start len) = Some i.
Proof.
  revert start. induction len as [|len IH]; intros start Hi; [lia|].
  simpl. destruct (String.eqb (decimal start) (decimal i)) eqn:E.
  - apply String.eqb_eq, decimal_inj in E. now subst.
  - apply IH. assert (start <> i).
    { intros ->. rewrite String.eqb_refl in E. discriminate. }
    lia.
Qed.

Lemma get_array_index (l : list JsVal) (i : nat) :
  i < List.length l -> get (Arr l) (decimal i) = Normal (List.nth i l Undefined).
Proof.
  intros Hi. simpl. rewrite decimal_not_length.
  unfold array_index. rewrite find_decimal by lia. reflexivity.
Qed.

(** ** The loop over [scores] *)

Lemma scoreDetail_of_readable (stn : string -> float) (entry : JsVal) :
  readable entry -> scoreDetail_of stn entry = Normal (spec_detail stn entry).
Proof.
  intros Hr. unfold scoreDetail_of, spec_detail.
  rewrite !(get_readable entry) by assumption. simpl.
  destruct (truthy (field entry "score")); reflexivity.
Qed.

Lemma score_loop_array (stn : string -> float) (l : list JsVal) :
  Forall readable l ->
  forall fuel i acc,
    i <= List.length l -> List.length l - i < fuel ->
    score_loop stn fuel i (Arr l) acc
    = Some (Normal (acc ++ List.map (spec_detail stn) (List.skipn i l))).
Proof.
  intros Hall. induction fuel as [|fuel IH]; intros i acc Hi Hfuel; [lia|].
  cbn [score_loop below_length].
  destruct (Nat.ltb i (List.length l)) eqn:Hlt.
  - apply Nat.ltb_lt in Hlt.
    rewrite get_array_index by assumption. cbn [bind].
    assert (Hr : readable (List.nth i l Undefined)).
    { apply (proj1 (List.Forall_forall readable l) Hall). now apply List.nth_In. }
    rewrite scoreDetail_of_readable by assumption.
    rewrite IH by lia.
    rewrite <- app_assoc. simpl.
    replace (List.skipn i l) with (List.nth i l Undefined :: List.skipn (S i) l); [reflexivity|].
    clear -Hlt. revert i Hlt. induction l as [|x l IHl]; intros i Hlt; simpl in *; [lia|].
    destruct i as [|i]; [reflexivity|]. apply IHl. lia.
  - apply Nat.ltb_ge in Hlt.
    rewrite skipn_all2 by assumption. simpl. now rewrite app_nil_r.
Qed.

Lemma truthy_readable (v : JsVal) : truthy v = true -> readable v.
Proof. destruct v; simpl; intros H; try exact I; discriminate H. Qed.

(** ** The three cases of [parsePropensityResponse_] *)

(** C5.  On a response whose properties can be read, the parser follows the
    case analysis of the specification: a missing (or otherwise falsy)
    [header] gives [{header: {ok: false}, body: {error: 'No valid response'}}];
    a header whose [ok] is false gives [{header: {ok: false}, body: {error:
    response.error}}]; a header whose [ok] is true, over an array of entries,
    gives [{header: {ok: true}, body: {scores}}] where [scores] has the length
    and the order of the input, the entry at each index being the value detail
    [{product, score: {value, bucketed}}] with [bucketed] equal to
    [score_type == 2] when its [score] is truthy, and the error detail
    [{product, error: error_message}] otherwise. *)
Theorem parsePropensityResponse_case_analysis
    (stn : string -> float) (fuel : nat) (response : JsVal) :
  readable response ->
  let header := field response "header" in
  let ok := field header "ok" in
  (truthy header = false ->
     parsePropensityResponse_ stn fuel response = Some (Normal no_valid_response))
  /\ (truthy header = true -> truthy ok = false ->
     parsePropensityResponse_ stn fuel response
     = Some (Normal (HeaderBody false (BodyError (field response "error")))))
  /\ (truthy header = true -> truthy ok = true ->
      forall scores : list JsVal,
        field response "scores" = Arr scores ->
        Forall readable scores ->
        List.length scores < fuel ->
        exists details : list ScoreDetail,
          parsePropensityResponse_ stn fuel response
          = Some (Normal (HeaderBody true (BodyScores details)))
          /\ List.length details = List.length scores
          /\ forall (i : nat) (entry : JsVal),
               List.nth_error scores i = Some entry ->
               List.nth_error details i = Some (spec_detail stn entry)).
Proof.
  intros Hr header ok. unfold parsePropensityResponse_.
  rewrite !(get_readable response) by assumption.
  fold header. repeat split.
  - intros Hh. now rewrite Hh.
  - intros Hh Hok. rewrite Hh. cbn [negb].
    rewrite (get_readable header) by now apply truthy_readable.
    fold ok. now rewrite Hok.
  - intros Hh Hok scores Hs Hall Hfuel. rewrite Hh. cbn [negb].
    rewrite (get_readable header) by now apply truthy_readable.
    fold ok. rewrite Hok, Hs.
    rewrite (score_loop_array stn scores Hall) by lia.
    cbn [List.skipn app].
    exists (List.map (spec_detail stn) scores). repeat split.
    + apply List.length_map.
    + intros i entry Hi. now apply List.map_nth_error.
Qed.

(** The three cases on a response without header, on a refusal of the
    server, and on the sample response of the specification. *)
Lemma parsePropensityResponse_case_analysis_witness :
  parsePropensityResponse_ spells_two_only 3 (Obj [])
  = Some (Normal no_valid_response)
  /\ parsePropensityResponse_ spells_two_only 3
       (Obj [("header", Obj [("ok", Bool false)]); ("error", Str "Service not available")])
     = Some (Normal (HeaderBody false (BodyError (Str "Service not available"))))
  /\ exists details : list ScoreDetail,
       parsePropensityResponse_ spells_two_only 3 sample_response
       = Some (Normal (HeaderBody true (BodyScores details)))
       /\ List.length details = 2
       /\ List.nth_error details 0
          = Some (ProductScore (Str "a") {| value := Num 5; bucketed := true |})
       /\ List.nth_error details 1 = Some (ProductError (Str "b") (Str "x")).
Proof.
  split; [|split].
  - exact (proj1 (parsePropensityResponse_case_analysis spells_two_only 3 (Obj []) I)
             eq_refl).
  - exact (proj1 (proj2 (parsePropensityResponse_case_analysis spells_two_only 3
             (Obj [("header", Obj [("ok", Bool false)]);
                   ("error", Str "Service not available")]) I))
             eq_refl eq_refl).
  - assert (Hall : Forall readable
               [Obj [("product", Str "a"); ("score", Num 5); ("score_type", Num 2)];
                Obj [("product", Str "b"); ("error_message", Str "x")]])
      by (repeat constructor).
    destruct (proj2 (proj2 (parsePropensityResponse_case_analysis spells_two_only 3
                sample_response I)) eq_refl eq_refl _ eq_refl Hall (le_n 3))
      as [details [Hparse [Hlen Hnth]]].
    exists details. repeat split.
    + exact Hparse.
    + exact Hlen.
    + exact (Hnth 0 _ eq_refl).
    + exact (Hnth 1 _ eq_refl).
Defined.

(** ** A header that says [ok] over a response that carries no scores *)

(** C4.  On [{header: {ok: true}}] the parser throws at [scores.length], and
    the promise of the score query is rejected with that exception instead of
    being fulfilled with a result; on [null] it throws at [response['header']]
    and the promise is rejected likewise. *)
Theorem getPropensity_rejects_ok_without_scores (stn : string -> float) (fuel : nat) :
  parsePropensityResponse_ stn (S fuel) ok_without_scores
  = Some (Throw (TypeError "Cannot read property length"))
  /\ getPropensity stn (S fuel) ok_without_scores
     = Some (Rejected (TypeError "Cannot read property length"))
  /\ getPropensity stn fuel Null
     = Some (Rejected (TypeError "Cannot read property header")).
Proof. repeat split; reflexivity. Qed.
(* --------------------------------------------------------------------- *)
(** ** The event manager *)
(* --------------------------------------------------------------------- *)

Section EventManagerFacts.

Context {env : Env}.

(** *** Validation *)

Lemma isObject_Vget (h : Store) (v : Value) (k : string) :
  isObject h v = true -> Vget h v k = Normal (field_of h v k).
Proof.
  unfold field_of. destruct v; simpl; try discriminate.
  intros _. destruct (h !! l); reflexivity.
Qed.

Lemma validateEvent_throws_iff (h : Store) (event : Value) :
  (exists e, validateEvent h event = Throw e) <-> invalid_event h event.
Proof.
  unfold validateEvent, invalid_event.
  destruct (isObject h event) eqn:Hobj; cbn [negb].
  2:{ split; [intros _; now left | intros _; eauto]. }
  rewrite !(isObject_Vget h event) by assumption.
  destruct (isEnumValue AnalyticsEvent (field_of h event "eventType")); cbn [negb].
  2:{ split; [intros _; right; now left | intros _; eauto]. }
  destruct (isEnumValue EventOriginator (field_of h event "eventOriginator")); cbn [negb].
  2:{ split; [intros _; right; right; now left | intros _; eauto]. }
  destruct (isObject h (field_of h event "additionalParameters")) eqn:Hap;
    destruct (is_nullish (field_of h event "additionalParameters")) eqn:Hnull;
    cbn [negb andb];
    try (split; [intros _; right; right; right; left; now split | intros _; eauto]);
    (destruct (is_nullish (field_of h event "isFromUserAction")) eqn:Hn2;
     destruct (isBoolean (field_of h event "isFromUserAction")) eqn:Hb2;
     cbn [negb andb];
     try (split; [intros _; right; right; right; right; now split | intros _; eauto]);
     (split; [intros [e He]; discriminate He|];
      intros [H|[H|[H|[[H1 H2]|[H1 H2]]]]]; congruence)).
Qed.

(** *** One turn of each loop *)

Lemma for_filterers_cons (filterer : Value) (rest : list Value) (pos : nat)
    (event : Value) (w : World) :
  for_filterers (filterer :: rest) pos event w
  = match call AsFilterer pos filterer [event] w with
    | (Normal verdict, w1) =>
        if strict_equals verdict CANCEL_EVENT then (Normal true, w1)
        else for_filterers rest (S pos) event w1
    | (Throw e, w1) => for_filterers rest (S pos) event (snd (log e w1))
    end.
Proof.
  cbn [for_filterers]. unfold and_then at 1. unfold try_catch, and_then at 1.
  destruct (call AsFilterer pos filterer [event] w) as [[verdict|e] w1]; cbn.
  - destruct (strict_equals verdict CANCEL_EVENT); reflexivity.
  - reflexivity.
Qed.

Lemma for_listeners_cons (listener : Value) (rest : list Value) (pos : nat)
    (event eventParams : Value) (w : World) :
  for_listeners (listener :: rest) pos event eventParams w
  = match call AsListener pos listener [event; eventParams] w with
    | (Normal _, w1) => for_listeners rest (S pos) event eventParams w1
    | (Throw e, w1) => for_listeners rest (S pos) event eventParams (snd (log e w1))
    end.
Proof.
  cbn [for_listeners]. unfold and_then at 1. unfold try_catch, and_then at 1.
  destruct (call AsListener pos listener [event; eventParams] w) as [[x|e] w1];
    reflexivity.
Qed.

(** *** What a run adds to the world *)

Lemma grows_refl (w : World) : grows w w [].
Proof. unfold grows. cbn. now rewrite !app_nil_r. Qed.

Lemma grows_trans (w1 w2 w3 : World) (c1 c2 : list Call) :
  grows w1 w2 c1 -> grows w2 w3 c2 -> grows w1 w3 (c1 ++ c2).
Proof.
  intros (Hi1 & Hc1 & Ha1) (Hi2 & Hc2 & Ha2). unfold grows.
  rewrite Hi2, Hi1, Hc2, Hc1, Ha2, Ha1. unfold thrown_by.
  rewrite List.flat_map_app, !app_assoc. auto.
Qed.

Lemma call_grows (r : Role) (pos : nat) (f : Value) (args : list Value) (w : World) :
  exists c,
    role c = r /\ position c = pos /\ arguments c = args
    /\ outcome c = fst (call r pos f args w)
    /\ invoked (snd (call r pos f args w)) = invoked w ++ [c]
    /\ console (snd (call r pos f args w)) = console w
    /\ awaiting (snd (call r pos f args w)) = awaiting w.
Proof.
  unfold call.
  destruct (match f with
            | VFun id => behaviour id args (store w)
            | _ => (Throw (TypeError "not a function"), store w)
            end) as [result h].
  eexists {| role := r; position := pos; arguments := args; outcome := result |}.
  cbn. auto 10.
Qed.

(** One guarded call: the world grows by that call, whatever it did. *)
Lemma guarded_call_grows (r : Role) (pos : nat) (f : Value) (args : list Value) (w : World) :
  exists c,
    role c = r /\ position c = pos /\ arguments c = args
    /\ outcome c = fst (call r pos f args w)
    /\ grows w (match call r pos f args w with
                | (Normal _, w1) => w1
                | (Throw e, w1) => snd (log e w1)
                end) [c].
Proof.
  destruct (call_grows r pos f args w) as (c & Hr & Hp & Ha & Ho & Hi & Hc & Hw).
  exists c. repeat (split; [assumption|]).
  destruct (call r pos f args w) as [[x|e] w1]; cbn in *; unfold grows, thrown_by;
    cbn; rewrite Ho; cbn; rewrite ?app_nil_r; auto.
  now rewrite Hc.
Qed.

Lemma filterer_calls_nil (pos : nat) (event : Value) : filterer_calls pos event [].
Proof. intros n c H. destruct n; discriminate H. Qed.

Lemma filterer_calls_cons (pos : nat) (event : Value) (c0 : Call) (calls : list Call) :
  role c0 = AsFilterer -> position c0 = pos -> arguments c0 = [event] ->
  filterer_calls (S pos) event calls ->
  filterer_calls pos event (c0 :: calls).
Proof.
  intros Hr Hp Ha Hrest n c H. destruct n as [|n]; cbn in H.
  - injection H as <-. repeat split; auto. lia.
  - destruct (Hrest n c H) as (? & ? & ?). repeat split; auto. lia.
Qed.

Lemma listener_calls_nil (pos : nat) (event eventParams : Value) :
  listener_calls pos event eventParams [].
Proof. intros n c H. destruct n; discriminate H. Qed.

Lemma listener_calls_cons (pos : nat) (event eventParams : Value) (c0 : Call)
    (calls : list Call) :
  role c0 = AsListener -> position c0 = pos -> arguments c0 = [event; eventParams] ->
  listener_calls (S pos) event eventParams calls ->
  listener_calls pos event eventParams (c0 :: calls).
Proof.
  intros Hr Hp Ha Hrest n c H. destruct n as [|n]; cbn in H.
  - injection H as <-. repeat split; auto. lia.
  - destruct (Hrest n c H) as (? & ? & ?). repeat split; auto. lia.
Qed.

Lemma filterers_outcome_step (filterer : Value) (rest : list Value) (returned : bool)
    (c0 : Call) (calls : list Call) :
  returned_cancel c0 = false ->
  filterers_outcome rest returned calls ->
  filterers_outcome (filterer :: rest) returned (c0 :: calls).
Proof.
  intros Hc0 (Hlen & Hno & Hyes). unfold filterers_outcome. cbn [List.length].
  split; [lia|]. split.
  - intros H. destruct (Hno H) as [Hl Hall]. split; [lia|].
    intros c [<-|Hin]; auto.
  - intros H. destruct (Hyes H) as (before & c & -> & Hc & Hb).
    exists (c0 :: before), c. split; [reflexivity|]. split; [assumption|].
    intros c' [<-|Hin]; auto.
Qed.

Lemma for_filterers_spec (filterers : list Value) :
  forall (pos : nat) (event : Value) (w : World),
  exists (returned : bool) (w' : World) (calls : list Call),
    for_filterers filterers pos event w = (Normal returned, w')
    /\ grows w w' calls
    /\ filterer_calls pos event calls
    /\ filterers_outcome filterers returned calls.
Proof.
  induction filterers as [|filterer rest IH]; intros pos event w.
  - exists false, w, []. split; [reflexivity|]. split; [apply grows_refl|].
    split; [apply filterer_calls_nil|].
    unfold filterers_outcome. cbn. split; [lia|]. split.
    + intros _. split; [reflexivity|]. intros c [].
    + discriminate.
  - rewrite for_filterers_cons.
    destruct (guarded_call_grows AsFilterer pos filterer [event] w)
      as (c0 & Hr & Hp & Ha & Ho & Hg).
    destruct (call AsFilterer pos filterer [event] w) as [[verdict|e] w1] eqn:Hcall;
      cbn [fst] in Ho.
    + destruct (strict_equals verdict CANCEL_EVENT) eqn:Hv.
      * exists true, w1, [c0]. split; [reflexivity|]. split; [assumption|].
        split; [apply filterer_calls_cons; auto using filterer_calls_nil|].
        unfold filterers_outcome. cbn [List.length]. split; [lia|]. split.
        -- discriminate.
        -- intros _. exists [], c0. split; [reflexivity|]. split.
           ++ unfold returned_cancel. now rewrite Ho.
           ++ intros c' [].
      * destruct (IH (S pos) event w1) as (returned & w' & calls & Hrun & Hg' & Hshape & Hout).
        exists returned, w', (c0 :: calls). split; [assumption|]. split.
        { apply (grows_trans w w1 w' [c0] calls); assumption. }
        split; [apply filterer_calls_cons; auto|].
        apply filterers_outcome_step; [|assumption].
        unfold returned_cancel. now rewrite Ho.
    + destruct (IH (S pos) event (snd (log e w1)))
        as (returned & w' & calls & Hrun & Hg' & Hshape & Hout).
      exists returned, w', (c0 :: calls). split; [assumption|]. split.
      { apply (grows_trans w (snd (log e w1)) w' [c0] calls); assumption. }
      split; [apply filterer_calls_cons; auto|].
      apply filterers_outcome_step; [|assumption].
      unfold returned_cancel. now rewrite Ho.
Qed.

Lemma for_listeners_spec (listeners : list Value) :
  forall (pos : nat) (event eventParams : Value) (w : World),
  exists (w' : World) (calls : list Call),
    for_listeners listeners pos event eventParams w = (Normal tt, w')
    /\ grows w w' calls
    /\ listener_calls pos event eventParams calls
    /\ List.length calls = List.length listeners.
Proof.
  induction listeners as [|listener rest IH]; intros pos event eventParams w.
  - exists w, []. split; [reflexivity|]. split; [apply grows_refl|].
    split; [apply listener_calls_nil | reflexivity].
  - rewrite for_listeners_cons.
    destruct (guarded_call_grows AsListener pos listener [event; eventParams] w)
      as (c0 & Hr & Hp & Ha & Ho & Hg).
    destruct (call AsListener pos listener [event; eventParams] w) as [[x|e] w1].
    + destruct (IH (S pos) event eventParams w1) as (w' & calls & Hrun & Hg' & Hshape & Hlen).
      exists w', (c0 :: calls). split; [assumption|]. split.
      { apply (grows_trans w w1 w' [c0] calls); assumption. }
      split; [apply listener_calls_cons; auto|]. cbn. now rewrite Hlen.
    + destruct (IH (S pos) event eventParams (snd (log e w1)))
        as (w' & calls & Hrun & Hg' & Hshape & Hlen).
      exists w', (c0 :: calls). split; [assumption|]. split.
      { apply (grows_trans w (snd (log e w1)) w' [c0] calls); assumption. }
      split; [apply listener_calls_cons; auto|]. cbn. now rewrite Hlen.
Qed.

(** *** A whole run of [handleEvent_] *)

Lemma handleEvent_resume_spec (m : ClientEventManager) (a : Activation) (w : World) :
  exists (w' : World) (fcalls lcalls : list Call),
    handleEvent_resume m a w = (Normal tt, w')
    /\ grows w w' (fcalls ++ lcalls)
    /\ calls_of (handleEvent_resume m a) w = fcalls ++ lcalls
    /\ filterer_calls 0 (act_event a) fcalls
    /\ filterers_outcome (filterers_ m) (dispatch_cancelled m a w) fcalls
    /\ (dispatch_cancelled m a w = true -> lcalls = [])
    /\ (dispatch_cancelled m a w = false ->
        listener_calls 0 (act_event a) (act_eventParams a) lcalls
        /\ List.length lcalls = List.length (listeners_ m)).
Proof.
  unfold handleEvent_resume, dispatch_cancelled, calls_of, and_then.
  destruct (for_filterers_spec (filterers_ m) 0 (act_event a) w)
    as (returned & wf & fcalls & Hrun & Hg & Hshape & Hout).
  rewrite Hrun. cbn [fst].
  destruct returned.
  - exists wf, fcalls, []. rewrite app_nil_r. cbn [snd ret].
    split; [reflexivity|]. split; [assumption|]. split.
    { destruct Hg as (-> & _). now rewrite drop_app_length. }
    split; [assumption|]. split; [assumption|]. split; [reflexivity|discriminate].
  - destruct (for_listeners_spec (listeners_ m) 0 (act_event a) (act_eventParams a) wf)
      as (w' & lcalls & Hrun' & Hg' & Hshape' & Hlen).
    exists w', fcalls, lcalls. rewrite Hrun'. cbn [snd].
    pose proof (grows_trans w wf w' fcalls lcalls Hg Hg') as Hall.
    split; [reflexivity|]. split; [assumption|]. split.
    { destruct Hall as (-> & _). now rewrite drop_app_length. }
    split; [assumption|]. split; [assumption|]. split; [discriminate|].
    intros _. now split.
Qed.


(** *** The claims *)

(** C1.  [logEvent] on an invalid event (not an object, type or originator
    outside its enumeration, parameters present but no mapping, user-action
    mark present but no boolean) throws and leaves the world as it was:
    nothing is suspended, nobody is called.  On any other event it returns,
    having suspended one activation for that event and called nobody.  A
    later turn of the queue calls consumers only with the event of an
    activation that a successful [logEvent] suspended. *)
Theorem logEvent_validates_before_dispatch
    (m : ClientEventManager) (event eventParams : Value) (w : World) :
  (invalid_event (store w) event ->
     exists e, logEvent m event eventParams w = (Throw e, w))
  /\ (~ invalid_event (store w) event ->
      exists m',
        logEvent m event eventParams w
        = (Normal m', suspend {| act_event := event; act_eventParams := eventParams |} w)
        /\ listeners_ m' = listeners_ m /\ filterers_ m' = filterers_ m)
  /\ calls_of (logEvent m event eventParams) w = []
  /\ (forall (m0 : ClientEventManager) (w0 : World) (c : Call),
        List.In c (calls_of (run_next m0) w0) ->
        exists a, List.head (awaiting w0) = Some a
                  /\ List.head (arguments c) = Some (act_event a)).
Proof.
  assert (Hcases :
    (exists e, validateEvent (store w) event = Throw e
               /\ logEvent m event eventParams w = (Throw e, w))
    \/ (validateEvent (store w) event = Normal tt
        /\ logEvent m event eventParams w
           = (Normal {| listeners_ := listeners_ m; filterers_ := filterers_ m;
                        lastAction_ := Some {| act_event := event;
                                               act_eventParams := eventParams |} |},
              suspend {| act_event := event; act_eventParams := eventParams |} w))).
  { unfold logEvent, and_then, handleEvent_, update, ret.
    destruct (validateEvent (store w) event) as [[]|e]; [right|left]; eauto. }
  split; [|split; [|split]].
  - intros Hinv. apply validateEvent_throws_iff in Hinv. destruct Hinv as [e He].
    destruct Hcases as [(e' & _ & Hlog)|(Hv & _)]; [eauto | congruence].
  - intros Hvalid. destruct Hcases as [(e & He & _)|(_ & Hlog)].
    + exfalso. apply Hvalid. apply validateEvent_throws_iff. eauto.
    + eexists. split; [exact Hlog|]. split; reflexivity.
  - unfold calls_of.
    destruct Hcases as [(e & _ & ->)|(_ & ->)]; cbn; apply drop_all.
  - intros m0 w0 c Hin. unfold calls_of, run_next in Hin.
    destruct (awaiting w0) as [|a rest] eqn:Hq.
    { cbn in Hin. rewrite drop_all in Hin. destruct Hin. }
    exists a. split; [reflexivity|].
    set (w1 := {| store := store w0; console := console w0; invoked := invoked w0;
                  awaiting := rest |}) in *.
    destruct (handleEvent_resume_spec m0 a w1)
      as (w' & fcalls & lcalls & _ & _ & Hcalls & Hf & _ & Hc & Hl).
    unfold calls_of in Hcalls. change (invoked w1) with (invoked w0) in Hcalls.
    rewrite Hcalls in Hin. apply List.in_app_or in Hin. destruct Hin as [Hin|Hin].
    + apply List.In_nth_error in Hin. destruct Hin as [n Hn].
      destruct (Hf n c Hn) as (_ & _ & ->). reflexivity.
    + destruct (dispatch_cancelled m0 a w1).
      * rewrite (Hc eq_refl) in Hin. destruct Hin.
      * destruct (Hl eq_refl) as [Hshape _].
        apply List.In_nth_error in Hin. destruct Hin as [n Hn].
        destruct (Hshape n c Hn) as (_ & _ & ->). reflexivity.
Qed.

(** C2.  If the call of the filterer at place [k] hands back the cancelling
    verdict, the run stops there: that call is the last one of the run, the
    calls of the run are those of the filterers at places [0] to [k], and no
    listener is called. *)
Theorem cancel_stops_dispatch
    (m : ClientEventManager) (a : Activation) (w : World) (n : nat) (c : Call) :
  List.nth_error (calls_of (handleEvent_resume m a) w) n = Some c ->
  role c = AsFilterer ->
  returned_cancel c = true ->
  position c = n
  /\ List.length (calls_of (handleEvent_resume m a) w) = S (position c)
  /\ (forall c', List.In c' (calls_of (handleEvent_resume m a) w) ->
        role c' = AsFilterer /\ position c' <= position c)
  /\ dispatch_cancelled m a w = true.
Proof.
  destruct (handleEvent_resume_spec m a w)
    as (w' & fcalls & lcalls & _ & _ & -> & Hf & (Hlen & Hno & Hyes) & Hc & Hl).
  intros Hn Hrole Hcancel.
  destruct (dispatch_cancelled m a w).
  - rewrite (Hc eq_refl), app_nil_r in *.
    destruct (Hyes eq_refl) as (before & c1 & -> & Hc1 & Hb).
    assert (Hlt : n < List.length (before ++ [c1])).
    { apply List.nth_error_Some. now rewrite Hn. }
    rewrite List.length_app in *. cbn [List.length] in *.
    assert (Hpos : position c = n) by (destruct (Hf n c Hn) as (_ & -> & _); lia).
    assert (Hlast : n = List.length before).
    { destruct (Nat.lt_ge_cases n (List.length before)) as [Hin|Hge]; [|lia].
      exfalso. rewrite List.nth_error_app1 in Hn by assumption.
      apply List.nth_error_In in Hn. apply Hb in Hn. congruence. }
    split; [assumption|]. split; [lia|]. split; [|reflexivity].
    intros c' Hin. apply List.In_nth_error in Hin. destruct Hin as [n' Hn'].
    assert (n' < List.length (before ++ [c1])).
    { apply List.nth_error_Some. now rewrite Hn'. }
    rewrite List.length_app in *. cbn [List.length] in *.
    destruct (Hf n' c' Hn') as (Hr' & Hp' & _). split; [assumption|lia].
  - exfalso. destruct (Hno eq_refl) as [_ Hall]. destruct (Hl eq_refl) as [Hshape _].
    apply List.nth_error_In, List.in_app_or in Hn. destruct Hn as [Hin|Hin].
    + apply Hall in Hin. congruence.
    + apply List.In_nth_error in Hin. destruct Hin as [n' Hn'].
      destruct (Hshape n' c Hn') as (Hr' & _). congruence.
Qed.



End EventManagerFacts.

(* --------------------------------------------------------------------- *)
(** ** The propensity server *)
(* --------------------------------------------------------------------- *)

(** *** Strict equality *)

Lemma SFeqb_true (x y : spec_float) :
  SFeqb x y = true ->
  x = y \/ exists s s', x = S754_zero s /\ y = S754_zero s'.
Proof.
  unfold SFeqb, SFcompare.
  destruct x as [sx|sx| |sx mx ex], y as [sy|sy| |sy my ey]; try discriminate;
    try (intros _; right; eauto; fail);
    try (destruct sx, sy; try discriminate; intros _; now left).
  destruct sx, sy; try discriminate;
    destruct (Z.compare ex ey) eqn:E; try discriminate;
    apply Z.compare_eq in E; subst;
    destruct (Pos.compare_cont Eq mx my) eqn:P; cbn; try discriminate;
    apply (Pos.compare_eq mx my) in P; subst; intros _; now left.
Qed.

Lemma float_eqb_trans (x y z : float) :
  PrimFloat.eqb x y = true -> PrimFloat.eqb x z = PrimFloat.eqb y z.
Proof.
  rewrite !FloatAxioms.eqb_spec. intros H. apply SFeqb_true in H.
  destruct H as [->|(s & s' & -> & ->)]; [reflexivity|].
  unfold SFeqb, SFcompare. destruct (Prim2SF z); reflexivity.
Qed.

(** Two values strictly equal to each other are strictly equal to the same
    values. *)
Lemma strict_equals_trans (a b c : Value) :
  strict_equals a b = true -> strict_equals a c = strict_equals b c.
Proof.
  destruct a, b; cbn; try discriminate; try reflexivity; intros H.
  - apply Bool.eqb_prop in H. now subst.
  - destruct c; cbn; try reflexivity. now apply float_eqb_trans.
  - apply String.eqb_eq in H. now subst.
  - apply Nat.eqb_eq in H. now subst.
  - apply Nat.eqb_eq in H. now subst.
Qed.

(** *** The client identifier *)

Lemma getClientId_resolved (amb : Ambient) (s : ServerWorld) :
  getClientId_ amb s
  = (Normal (clientId_ (resolved amb (server s))),
     {| server := resolved amb (server s); heap := heap s;
        fetched := fetched s; reports := reports s |}).
Proof.
  unfold getClientId_, resolved, getDocumentCookie_.
  destruct (truthy_id (clientId_ (server s))); cbn [negb].
  - destruct s; reflexivity.
  - reflexivity.
Qed.

Section ServerFacts.

Context {env : Env}.

(** *** The two reports *)

Lemma propensityUrl_spec (amb : Ambient) (u : string) (s : ServerWorld) :
  exists u',
    propensityUrl_ amb u s
    = (Normal u',
       {| server := resolved amb (server s); heap := heap s;
          fetched := fetched s; reports := reports s |}).
Proof.
  unfold propensityUrl_, and_then, reads, ret.
  rewrite getClientId_resolved. eexists. reflexivity.
Qed.

Lemma sendSubscriptionState_spec (amb : Ambient) (state productsOrSkus : Value)
    (s : ServerWorld) :
  exists r,
    sendSubscriptionState amb state productsOrSkus s
    = (Normal tt,
       {| server := resolved amb (server s); heap := heap s;
          fetched := fetched s ++ [r];
          reports := reports s ++ [SubscriptionStateReport state productsOrSkus] |})
    /\ method r = "GET" /\ credentials r = "include".
Proof.
  unfold sendSubscriptionState, and_then, note, reads, update, fetch.
  match goal with
  | |- context [propensityUrl_ amb ?u ?s0] =>
      destruct (propensityUrl_spec amb u s0) as [u' ->]
  end.
  cbn. eexists. split; [reflexivity|]. split; reflexivity.
Qed.

Lemma sendEvent__spec (amb : Ambient) (event context : Value) (s : ServerWorld) :
  exists r,
    sendEvent_ amb event context s
    = (Normal tt,
       {| server := resolved amb (server s); heap := heap s;
          fetched := fetched s ++ [r];
          reports := reports s ++ [EventReport event context] |})
    /\ method r = "GET" /\ credentials r = "include".
Proof.
  unfold sendEvent_, and_then, note, reads, update, fetch.
  match goal with
  | |- context [propensityUrl_ amb ?u ?s0] =>
      destruct (propensityUrl_spec amb u s0) as [u' ->]
  end.
  cbn. eexists. split; [reflexivity|]. split; reflexivity.
Qed.

(** Replaces the call of [sendEvent_] in the goal by what it returns. *)
Ltac run_sendEvent_ r :=
  match goal with
  | |- context [sendEvent_ ?amb ?e ?c ?s0] =>
      destruct (sendEvent__spec amb e c s0) as (r & -> & _)
  end.

(** *** The two gates *)

Lemma handleClientEvent_dropped (amb : Ambient) (event : Value) (s : ServerWorld)
    (eventOriginator : Value) :
  Vget (heap s) event "eventOriginator" = Normal eventOriginator ->
  strict_equals eventOriginator SHOWCASE_CLIENT = true
  \/ (Vtruthy (enablePropensity amb) = false
      /\ strict_equals eventOriginator PROPENSITY_CLIENT = false) ->
  handleClientEvent_ amb event s = (Normal tt, s).
Proof.
  intros Ho Hdrop. unfold handleClientEvent_, and_then at 1. unfold read at 1.
  rewrite Ho. destruct Hdrop as [->|[Hflag Hp]]; [reflexivity|].
  rewrite Hflag, Hp. cbn. now destruct (strict_equals eventOriginator SHOWCASE_CLIENT).
Qed.

(** Past the gates the flag is not looked at again. *)
Lemma report_event_flag (flag : Value) (amb : Ambient) (event : Value) :
  report_event (with_flag flag amb) event = report_event amb event.
Proof. reflexivity. Qed.

Lemma handleClientEvent_past_gates (amb : Ambient) (event : Value) (s : ServerWorld)
    (eventOriginator : Value) :
  Vget (heap s) event "eventOriginator" = Normal eventOriginator ->
  strict_equals eventOriginator SHOWCASE_CLIENT = false ->
  Vtruthy (enablePropensity amb) = true
  \/ strict_equals eventOriginator PROPENSITY_CLIENT = true ->
  handleClientEvent_ amb event s = report_event amb event s.
Proof.
  intros Ho Hs Hpass.
  assert (Hgate : negb (Vtruthy (enablePropensity amb))
                  && negb (strict_equals eventOriginator PROPENSITY_CLIENT) = false)
    by (destruct Hpass as [-> | ->]; cbn; now rewrite ?andb_false_r).
  unfold handleClientEvent_, and_then at 1. unfold read at 1.
  now rewrite Ho, Hs, Hgate.
Qed.

(** *** What is done with an event past the gates *)

Lemma Vget_not_nullish (h : Store) (v : Value) (k : string) :
  is_nullish v = false -> Vget h v k = Normal (field_of h v k).
Proof.
  unfold field_of. destruct v; cbn; try discriminate; intros _; try reflexivity.
  destruct (h !! l); reflexivity.
Qed.

Lemma report_event_subscription_state (amb : Ambient) (event : Value) (s : ServerWorld)
    (eventType parameters : Value) :
  Vget (heap s) event "eventType" = Normal eventType ->
  strict_equals eventType EVENT_SUBSCRIPTION_STATE = true ->
  Vget (heap s) event "additionalParameters" = Normal parameters ->
  is_nullish parameters = false ->
  report_event amb event s
  = sendSubscriptionState amb (field_of (heap s) parameters "state")
      (field_of (heap s) parameters "productsOrSkus") s.
Proof.
  intros Ht Hstate Hp Hnn. unfold report_event.
  unfold and_then at 1. unfold read at 1. rewrite Ht, Hstate.
  unfold and_then at 1. unfold read at 1. rewrite Hp.
  unfold and_then at 1. unfold read at 1. rewrite (Vget_not_nullish _ _ _ Hnn).
  unfold and_then at 1. unfold read at 1. rewrite (Vget_not_nullish _ _ _ Hnn).
  reflexivity.
Qed.

Lemma isObject_is_ref (h : Store) (v : Value) :
  isObject h v = true -> exists l, v = VRef l.
Proof. destruct v; cbn; try discriminate. eauto. Qed.

Lemma report_event_publisher (amb : Ambient) (event : Value) (s : ServerWorld)
    (eventType additionalParameters isFromUserAction : Value) :
  Vget (heap s) event "eventType" = Normal eventType ->
  strict_equals eventType EVENT_SUBSCRIPTION_STATE = false ->
  is_nullish (analyticsEventToPublisherEvent eventType) = false ->
  Vget (heap s) event "additionalParameters" = Normal additionalParameters ->
  Vget (heap s) event "isFromUserAction" = Normal isFromUserAction ->
  report_event amb event s
  = match JSON_stringify (snd (prepared (heap s) additionalParameters isFromUserAction))
            (fst (prepared (heap s) additionalParameters isFromUserAction)) with
    | Normal context =>
        sendEvent_ amb (analyticsEventToPublisherEvent eventType) context
          (with_heap (snd (prepared (heap s) additionalParameters isFromUserAction)) s)
    | Throw e =>
        (Throw e,
         with_heap (snd (prepared (heap s) additionalParameters isFromUserAction)) s)
    end.
Proof.
  intros Ht Hstate Hmapped Hp Hu. unfold report_event.
  unfold and_then at 1. unfold read at 1. rewrite Ht, Hstate, Hmapped.
  unfold and_then at 1. unfold read at 1. rewrite Hp.
  unfold and_then at 1. unfold reads at 1.
  unfold and_then at 1. unfold read at 1. rewrite Hu.
  unfold prepared.
  set (parameters := if instanceof_EventParams (heap s) additionalParameters
                     then VUndefined else additionalParameters).
  destruct (isBoolean isFromUserAction).
  - unfold and_then at 1 2 3. unfold reads at 1.
    destruct (isObject (heap s) parameters) eqn:Hobj.
    + destruct (isObject_is_ref _ _ Hobj) as [l ->].
      cbv beta iota zeta delta [and_then ret update assign with_heap].
      cbn [heap server fetched reports fst snd].
      destruct (JSON_stringify _ _); reflexivity.
    + cbv beta iota zeta delta [and_then ret update assign new_object with_heap].
      cbn [heap server fetched reports fst snd].
      destruct (JSON_stringify _ _); reflexivity.
  - cbv beta iota zeta delta [and_then ret with_heap]. cbn [fst snd].
    replace {| server := server s; heap := heap s; fetched := fetched s;
               reports := reports s |} with s by (destruct s; reflexivity).
    destruct (JSON_stringify (heap s) parameters); reflexivity.
Qed.

(** *** The claims *)

(** C6.  An event from [SHOWCASE_CLIENT] is dropped whatever the flag says:
    nothing is fetched, nothing changes.  With the flag off, an event from
    any originator but [PROPENSITY_CLIENT] is dropped likewise.  An event
    from [PROPENSITY_CLIENT] passes both gates whatever the flag says, and is
    handled as the rest of the function handles it; for an event type with a
    publisher event whose parameters serialise, this makes one event report
    and one request. *)
Theorem handleClientEvent_gates
    (amb : Ambient) (event : Value) (s : ServerWorld) (eventOriginator : Value) :
  Vget (heap s) event "eventOriginator" = Normal eventOriginator ->
  strict_equals PROPENSITY_CLIENT SHOWCASE_CLIENT = false ->
  (strict_equals eventOriginator SHOWCASE_CLIENT = true ->
     forall flag, handleClientEvent_ (with_flag flag amb) event s = (Normal tt, s))
  /\ (Vtruthy (enablePropensity amb) = false ->
      strict_equals eventOriginator PROPENSITY_CLIENT = false ->
      handleClientEvent_ amb event s = (Normal tt, s))
  /\ (strict_equals eventOriginator PROPENSITY_CLIENT = true ->
      forall flag,
        handleClientEvent_ (with_flag flag amb) event s = report_event amb event s
        /\ forall eventType additionalParameters isFromUserAction context,
             Vget (heap s) event "eventType" = Normal eventType ->
             strict_equals eventType EVENT_SUBSCRIPTION_STATE = false ->
             is_nullish (analyticsEventToPublisherEvent eventType) = false ->
             Vget (heap s) event "additionalParameters" = Normal additionalParameters ->
             Vget (heap s) event "isFromUserAction" = Normal isFromUserAction ->
             JSON_stringify
               (snd (prepared (heap s) additionalParameters isFromUserAction))
               (fst (prepared (heap s) additionalParameters isFromUserAction))
             = Normal context ->
             exists r s',
               handleClientEvent_ (with_flag flag amb) event s = (Normal tt, s')
               /\ fetched s' = fetched s ++ [r]
               /\ reports s'
                  = reports s
                    ++ [EventReport (analyticsEventToPublisherEvent eventType) context]).
Proof.
  intros Ho Hdistinct. split; [|split].
  - intros Hshowcase flag.
    apply (handleClientEvent_dropped _ _ _ eventOriginator); auto.
  - intros Hflag Hp.
    apply (handleClientEvent_dropped _ _ _ eventOriginator); auto.
  - intros Hp flag.
    assert (Hs : strict_equals eventOriginator SHOWCASE_CLIENT = false)
      by now rewrite (strict_equals_trans _ _ _ Hp).
    assert (Hpast : handleClientEvent_ (with_flag flag amb) event s
                    = report_event amb event s).
    { rewrite (handleClientEvent_past_gates _ _ _ eventOriginator); auto. }
    split; [exact Hpast|].
    intros eventType additionalParameters isFromUserAction context Ht Hstate Hmapped
      Hparams Hu Hjson.
    rewrite Hpast.
    rewrite (report_event_publisher _ _ _ eventType additionalParameters isFromUserAction)
      by assumption.
    rewrite Hjson.
    run_sendEvent_ r.
    eexists r, _. split; [reflexivity|]. split; reflexivity.
Qed.

(** What [sendSubscriptionState] hands to the fetcher, spelled out. *)
Lemma sendSubscriptionState_request (amb : Ambient) (state productsOrSkus : Value)
    (s : ServerWorld) :
  let u := addQueryParam (adsUrl "/subopt/data") "states"
             (publicationId_ (server s) ++ ":" ++ ToString (heap s) state)%string in
  let u := if Vtruthy productsOrSkus
           then addQueryParam u "extrainfo" (ToString (heap s) productsOrSkus)
           else u in
  let u := addQueryParam u "u_tz" "240" in
  let u := addQueryParam u "v" (decimal (version_ (server s))) in
  let u := match clientId_ (resolved amb (server s)) with
           | Some id =>
               if truthy_id (clientId_ (resolved amb (server s)))
               then addQueryParam u "cookie" id else u
           | None => u
           end in
  let u := addQueryParam u "cdm" (location_hostname amb) in
  sendSubscriptionState amb state productsOrSkus s
  = (Normal tt,
     {| server := resolved amb (server s); heap := heap s;
        fetched := fetched s ++ [{| url := u; method := "GET"; credentials := "include" |}];
        reports := reports s ++ [SubscriptionStateReport state productsOrSkus] |}).
Proof.
  unfold sendSubscriptionState, propensityUrl_, and_then, note, reads, update, fetch, ret.
  rewrite getClientId_resolved. reflexivity.
Qed.

(** C7, as the code has it.  An event of type [EVENT_SUBSCRIPTION_STATE] that
    passes the gates and whose parameters are neither [null] nor [undefined]
    makes exactly one report, the subscription-state report of the [state]
    and the [productsOrSkus] of its parameters, and no event report.  The one
    request that leaves is a [GET] with credentials to [/subopt/data] whose
    [states] is the publication, a colon and the state, with the products as
    [extrainfo] when they are truthy, followed by what [propensityUrl_] adds
    to every URL.  The store is left as it was.  When the parameters are
    [null] or [undefined] the call throws a type error instead and reports
    nothing. *)
Theorem subscription_state_reported_once
    (amb : Ambient) (event : Value) (s : ServerWorld)
    (eventOriginator eventType parameters : Value) :
  Vget (heap s) event "eventOriginator" = Normal eventOriginator ->
  strict_equals eventOriginator SHOWCASE_CLIENT = false ->
  Vtruthy (enablePropensity amb) = true
  \/ strict_equals eventOriginator PROPENSITY_CLIENT = true ->
  Vget (heap s) event "eventType" = Normal eventType ->
  strict_equals eventType EVENT_SUBSCRIPTION_STATE = true ->
  Vget (heap s) event "additionalParameters" = Normal parameters ->
  (is_nullish parameters = false ->
   let state := field_of (heap s) parameters "state" in
   let productsOrSkus := field_of (heap s) parameters "productsOrSkus" in
   let u := addQueryParam (adsUrl "/subopt/data") "states"
              (publicationId_ (server s) ++ ":" ++ ToString (heap s) state)%string in
   let u := if Vtruthy productsOrSkus
            then addQueryParam u "extrainfo" (ToString (heap s) productsOrSkus)
            else u in
   let u := addQueryParam u "u_tz" "240" in
   let u := addQueryParam u "v" (decimal (version_ (server s))) in
   let u := match clientId_ (resolved amb (server s)) with
            | Some id =>
                if truthy_id (clientId_ (resolved amb (server s)))
                then addQueryParam u "cookie" id else u
            | None => u
            end in
   let u := addQueryParam u "cdm" (location_hostname amb) in
   handleClientEvent_ amb event s
   = sendSubscriptionState amb state productsOrSkus s
   /\ handleClientEvent_ amb event s
      = (Normal tt,
         {| server := resolved amb (server s);
            heap := heap s;
            fetched := fetched s
                       ++ [{| url := u; method := "GET"; credentials := "include" |}];
            reports := reports s ++ [SubscriptionStateReport state productsOrSkus] |}))
  /\ (is_nullish parameters = true ->
      exists message, handleClientEvent_ amb event s = (Throw (TypeError message), s)).
Proof.
  intros Ho Hs Hpass Ht Hstate Hparams.
  rewrite (handleClientEvent_past_gates _ _ _ eventOriginator) by assumption.
  split.
  - intros Hnn.
    rewrite (report_event_subscription_state _ _ _ eventType parameters) by assumption.
    split; [reflexivity|].
    apply sendSubscriptionState_request.
  - intros Hnn. unfold report_event, and_then at 1. unfold read at 1.
    rewrite Ht, Hstate.
    unfold and_then at 1. unfold read at 1. rewrite Hparams.
    unfold and_then at 1. unfold read at 1.
    destruct parameters; try discriminate Hnn; cbn [Vget]; eexists; reflexivity.
Qed.

Lemma set_property_new (h : Store) (l : nat) (k : string) (x : Value) :
  set_property (<[l := {| kind := PlainObject; properties := [] |}]> h) l k x
  = <[l := {| kind := PlainObject; properties := [(k, x)] |}]> h.
Proof.
  unfold set_property. rewrite lookup_insert_eq. cbn. apply insert_insert_eq.
Qed.

Lemma fresh_location_unused (h : Store) : h !! fresh (dom h) = None.
Proof. apply not_elem_of_dom. apply is_fresh. Qed.

(** What [prepared] amounts to, case by case. *)
Lemma prepared_cases (h : Store) (additionalParameters isFromUserAction : Value) :
  (isBoolean isFromUserAction = false ->
     prepared h additionalParameters isFromUserAction
     = (if instanceof_EventParams h additionalParameters then VUndefined
        else additionalParameters, h))
  /\ (isBoolean isFromUserAction = true ->
      instanceof_EventParams h additionalParameters = true
      \/ isObject h additionalParameters = false ->
      prepared h additionalParameters isFromUserAction
      = (VRef (fresh (dom h)),
         <[fresh (dom h) := {| kind := PlainObject;
                               properties := [("is_active", isFromUserAction)] |}]> h))
  /\ (isBoolean isFromUserAction = true ->
      forall l o,
        additionalParameters = VRef l -> h !! l = Some o -> kind o = PlainObject ->
        prepared h additionalParameters isFromUserAction
        = (VRef l,
           <[l := {| kind := PlainObject;
                     properties := put "is_active" isFromUserAction (properties o) |}]> h)).
Proof.
  unfold prepared. split; [|split].
  - intros ->. reflexivity.
  - intros -> Hnew.
    assert (Hobj : isObject h (if instanceof_EventParams h additionalParameters
                               then VUndefined else additionalParameters) = false).
    { destruct Hnew as [-> | Hno]; [reflexivity|].
      now destruct (instanceof_EventParams h additionalParameters). }
    rewrite Hobj. now rewrite set_property_new.
  - intros -> l o -> Hl Hk.
    unfold instanceof_EventParams, isObject, kind_of, set_property. cbn.
    rewrite !Hl. cbn. rewrite !Hk. cbn. rewrite !Hl. cbn. rewrite !Hk. reflexivity.
Qed.

(** The store [handleClientEvent_] leaves behind is the one [prepared] made. *)
Lemma report_event_publisher_heap (amb : Ambient) (event : Value) (s : ServerWorld)
    (eventType additionalParameters isFromUserAction : Value) :
  Vget (heap s) event "eventType" = Normal eventType ->
  strict_equals eventType EVENT_SUBSCRIPTION_STATE = false ->
  is_nullish (analyticsEventToPublisherEvent eventType) = false ->
  Vget (heap s) event "additionalParameters" = Normal additionalParameters ->
  Vget (heap s) event "isFromUserAction" = Normal isFromUserAction ->
  heap (snd (report_event amb event s))
  = snd (prepared (heap s) additionalParameters isFromUserAction).
Proof.
  intros Ht Hstate Hmapped Hparams Hu.
  rewrite (report_event_publisher _ _ _ eventType additionalParameters isFromUserAction)
    by assumption.
  destruct (JSON_stringify _ _) as [context|e]; [|reflexivity].
  run_sendEvent_ r.
  reflexivity.
Qed.

(** C8, as the code has it.  When [handleClientEvent_] forwards an event
    with a publisher event: parameters that are an [EventParams] are replaced
    by [undefined] before they are serialised; a boolean [isFromUserAction]
    is written as [is_active] into the parameter object itself when the
    parameters are an object of another kind, so that the object of the caller
    acquires the field, and into a new object when they are absent or an
    [EventParams], in which case every object of the caller is left as it
    was; without a boolean [isFromUserAction] the store is left as it was. *)
Theorem is_active_written_into_parameters
    (amb : Ambient) (event : Value) (s : ServerWorld)
    (eventOriginator eventType additionalParameters isFromUserAction : Value) :
  Vget (heap s) event "eventOriginator" = Normal eventOriginator ->
  strict_equals eventOriginator SHOWCASE_CLIENT = false ->
  Vtruthy (enablePropensity amb) = true
  \/ strict_equals eventOriginator PROPENSITY_CLIENT = true ->
  Vget (heap s) event "eventType" = Normal eventType ->
  strict_equals eventType EVENT_SUBSCRIPTION_STATE = false ->
  is_nullish (analyticsEventToPublisherEvent eventType) = false ->
  Vget (heap s) event "additionalParameters" = Normal additionalParameters ->
  Vget (heap s) event "isFromUserAction" = Normal isFromUserAction ->
  let serialised := fst (prepared (heap s) additionalParameters isFromUserAction) in
  let h' := snd (prepared (heap s) additionalParameters isFromUserAction) in
  handleClientEvent_ amb event s
  = match JSON_stringify h' serialised with
    | Normal context =>
        sendEvent_ amb (analyticsEventToPublisherEvent eventType) context (with_heap h' s)
    | Throw e => (Throw e, with_heap h' s)
    end
  /\ heap (snd (handleClientEvent_ amb event s)) = h'
  /\ (instanceof_EventParams (heap s) additionalParameters = true ->
      isBoolean isFromUserAction = false ->
      serialised = VUndefined /\ h' = heap s)
  /\ (isBoolean isFromUserAction = false -> h' = heap s)
  /\ (isBoolean isFromUserAction = true ->
      forall l o,
        additionalParameters = VRef l -> heap s !! l = Some o -> kind o = PlainObject ->
        serialised = VRef l
        /\ h' = <[l := {| kind := PlainObject;
                          properties := put "is_active" isFromUserAction (properties o) |}]>
                  (heap s))
  /\ (isBoolean isFromUserAction = true ->
      instanceof_EventParams (heap s) additionalParameters = true
      \/ isObject (heap s) additionalParameters = false ->
      serialised = VRef (fresh (dom (heap s)))
      /\ h' !! fresh (dom (heap s))
         = Some {| kind := PlainObject; properties := [("is_active", isFromUserAction)] |}
      /\ forall l o, heap s !! l = Some o -> h' !! l = Some o).
Proof.
  intros Ho Hs Hpass Ht Hstate Hmapped Hparams Hu serialised h'.
  destruct (prepared_cases (heap s) additionalParameters isFromUserAction)
    as (Hplain & Hnew & Hplace).
  rewrite (handleClientEvent_past_gates _ _ _ eventOriginator) by assumption.
  split; [|split; [|split; [|split; [|split]]]].
  - now apply report_event_publisher.
  - now apply (report_event_publisher_heap _ _ _ eventType).
  - intros Hep Hb. unfold serialised, h'. rewrite (Hplain Hb), Hep. now split.
  - intros Hb. unfold h'. now rewrite (Hplain Hb).
  - intros Hb l o Hl Hlook Hk. unfold serialised, h'.
    rewrite (Hplace Hb l o Hl Hlook Hk). now split.
  - intros Hb Hcase. unfold serialised, h'. rewrite (Hnew Hb Hcase). cbn [fst snd].
    split; [reflexivity|]. split; [apply lookup_insert_eq|].
    intros l o Hl. rewrite lookup_insert_ne; [assumption|].
    intros <-. rewrite fresh_location_unused in Hl. discriminate.
Qed.

End ServerFacts.

(** An identifier derived from a cookie string is never the empty string, so
    the field holds either [null] or a string that counts as true. *)
Lemma match_tail_group (s before group : list ascii) :
  match_tail s = Some (before, group) -> group <> [].
Proof.
  unfold match_tail.
  destruct (span is_space s) as [sp1 s1].
  destruct (strip_prefix gads s1) as [s2|]; [|discriminate].
  destruct (span is_space s2) as [sp2 s3].
  destruct s3 as [|c s4]; [discriminate|].
  destruct (Ascii.eqb c "="%char) eqn:Hc.
  2:{ destruct c as [[] [] [] [] [] [] [] []]; try discriminate; discriminate Hc. }
  apply Ascii.eqb_eq in Hc. subst c.
  destruct (span is_space s4) as [sp3 s5].
  destruct (span not_semicolon s5) as [run rest].
  destruct run as [|r run'].
  - destruct (List.rev sp3) as [|c before']; [discriminate|].
    intros H. injection H as _ <-. discriminate.
  - intros H. injection H as _ <-. discriminate.
Qed.

Lemma string_of_list_ascii_not_empty (l : list ascii) :
  l <> [] -> string_of_list_ascii l <> EmptyString.
Proof. destruct l; [congruence|discriminate]. Qed.

Lemma match_here_pop (at_start : bool) (s : list ascii) (m : list string) :
  match_here at_start s = Some m -> pop m <> EmptyString.
Proof.
  unfold match_here.
  destruct (if at_start then match_tail s else None) as [[before group]|] eqn:Hfirst.
  - intros H. injection H as <-. cbn.
    apply string_of_list_ascii_not_empty.
    destruct at_start; [|discriminate]. now apply (match_tail_group s before).
  - destruct s as [|c s']; [discriminate|].
    destruct (Ascii.eqb c ";"%char) eqn:Hc.
    2:{ destruct c as [[] [] [] [] [] [] [] []]; try discriminate; discriminate Hc. }
    apply Ascii.eqb_eq in Hc. subst c.
    destruct (match_tail s') as [[before group]|] eqn:Htail; [|discriminate].
    intros H. injection H as <-. cbn.
    apply string_of_list_ascii_not_empty. now apply (match_tail_group s' before).
Qed.

Lemma search_pop (s : list ascii) :
  forall (at_start : bool) (m : list string),
    search at_start s = Some m -> pop m <> EmptyString.
Proof.
  induction s as [|c s IH]; intros at_start m; cbn [search].
  - destruct (match_here at_start []) eqn:Hm; [|discriminate].
    intros H. injection H as <-. now apply (match_here_pop at_start []).
  - destruct (match_here at_start (c :: s)) eqn:Hm.
    + intros H. injection H as <-. now apply (match_here_pop at_start (c :: s)).
    + apply IH.
Qed.

Lemma encodeURIComponent_not_empty (s : string) :
  s <> EmptyString -> encodeURIComponent s <> EmptyString.
Proof.
  destruct s as [|c s]; [congruence|]. intros _. cbn [encodeURIComponent].
  unfold encode_unit, percent.
  destruct (unreserved c); [discriminate|].
  destruct (Nat.ltb (nat_of_ascii c) 128); discriminate.
Qed.

Lemma derived_truthy (cookie : string) (id : string) :
  derived cookie = Some id -> truthy_id (Some id) = true.
Proof.
  unfold derived, match_gads.
  destruct (search true (list_ascii_of_string cookie)) as [m|] eqn:Hm; [|discriminate].
  intros H. injection H as <-. cbn.
  apply search_pop in Hm. apply encodeURIComponent_not_empty in Hm.
  destruct (String.eqb_spec (encodeURIComponent (pop m)) ""); [contradiction|reflexivity].
Qed.

(** *** The cached identifier *)

(** C9, as the code has it.  [getClientId_] returns what the field holds
    when it ends.  Once the field holds an identifier, a call returns it
    and leaves the server as it was, whatever the cookie string has become.
    As long as the field holds none, each call derives it afresh from the
    cookie string of the moment; what is derived is [null] or an identifier
    that is not empty. *)
Theorem clientId_kept_once_resolved (amb : Ambient) (s : ServerWorld) :
  fst (getClientId_ amb s) = Normal (clientId_ (server (snd (getClientId_ amb s))))
  /\ (truthy_id (clientId_ (server s)) = true ->
      forall amb' : Ambient,
        getClientId_ amb' s = (Normal (clientId_ (server s)), s))
  /\ (truthy_id (clientId_ (server s)) = false ->
      clientId_ (server (snd (getClientId_ amb s))) = derived (document_cookie amb))
  /\ (truthy_id (clientId_ (server (snd (getClientId_ amb s)))) = true ->
      forall amb' : Ambient,
        getClientId_ amb' (snd (getClientId_ amb s))
        = (fst (getClientId_ amb s), snd (getClientId_ amb s)))
  /\ (forall id, derived (document_cookie amb) = Some id -> truthy_id (Some id) = true).
Proof.
  assert (Hkeep : forall s0 : ServerWorld,
             truthy_id (clientId_ (server s0)) = true ->
             forall amb' : Ambient,
               getClientId_ amb' s0 = (Normal (clientId_ (server s0)), s0)).
  { intros s0 H amb'. rewrite getClientId_resolved. unfold resolved. rewrite H.
    destruct s0; reflexivity. }
  split; [|split; [|split; [|split]]].
  - rewrite getClientId_resolved. reflexivity.
  - apply Hkeep.
  - intros H. rewrite getClientId_resolved. cbn [snd server]. unfold resolved.
    rewrite H. reflexivity.
  - intros H amb'. rewrite (Hkeep _ H amb').
    rewrite getClientId_resolved. reflexivity.
  - intros id. apply derived_truthy.
Qed.


(* --------------------------------------------------------------------- *)
(** ** The claims on the examples *)
(* --------------------------------------------------------------------- *)

(** On the event of no known type [logEvent] throws and nothing changes; on
    the event of the propensity client it suspends one activation. *)
Lemma logEvent_validates_before_dispatch_witness :
  invalid_event (env := sample_env) sample_store (VRef 8)
  /\ (exists e,
        logEvent (env := sample_env) proceeding_manager (VRef 8) VUndefined sample_world
        = (Throw e, sample_world))
  /\ ~ invalid_event (env := sample_env) sample_store (VRef 1)
  /\ (exists m',
        logEvent (env := sample_env) proceeding_manager (VRef 1) VUndefined sample_world
        = (Normal m',
           suspend {| act_event := VRef 1; act_eventParams := VUndefined |} sample_world)
        /\ listeners_ m' = listeners_ proceeding_manager
        /\ filterers_ m' = filterers_ proceeding_manager).
Proof.
  assert (Hbad : invalid_event (env := sample_env) sample_store (VRef 8)).
  { right; left. vm_compute. reflexivity. }
  assert (Hgood : ~ invalid_event (env := sample_env) sample_store (VRef 1)).
  { intros [H|[H|[H|[[_ H]|[_ H]]]]]; vm_compute in H; discriminate H. }
  split; [exact Hbad|]. split.
  - exact (proj1 (logEvent_validates_before_dispatch (env := sample_env)
                    proceeding_manager (VRef 8) VUndefined sample_world) Hbad).
  - split; [exact Hgood|].
    exact (proj1 (proj2 (logEvent_validates_before_dispatch (env := sample_env)
                           proceeding_manager (VRef 1) VUndefined sample_world)) Hgood).
Defined.

(** With the cancelling manager the third filterer cancels: the run has three
    calls, all of filterers, and no listener is called. *)
Lemma cancel_stops_dispatch_witness :
  let calls :=
    calls_of (handleEvent_resume (env := sample_env) cancelling_manager sample_activation)
      sample_world in
  let c := {| role := AsFilterer; position := 2; arguments := [VRef 1];
              outcome := Normal (VNum 1) |} in
  List.nth_error calls 2 = Some c
  /\ returned_cancel (env := sample_env) c = true
  /\ List.length calls = 3
  /\ (forall c', List.In c' calls -> role c' = AsFilterer /\ position c' <= 2)
  /\ dispatch_cancelled (env := sample_env) cancelling_manager sample_activation
       sample_world = true.
Proof.
  intros calls c.
  assert (Hn : List.nth_error calls 2 = Some c) by (vm_compute; reflexivity).
  assert (Hc : returned_cancel (env := sample_env) c = true) by (vm_compute; reflexivity).
  destruct (cancel_stops_dispatch (env := sample_env) cancelling_manager
              sample_activation sample_world 2 c Hn eq_refl Hc) as (H1 & H2 & H3 & H4).
  split; [exact Hn|]. split; [exact Hc|]. split; [exact H2|]. split; [exact H3|exact H4].
Defined.



(** The event of the showcase client is dropped whatever the flag; with the
    flag off the event of the core client is dropped and that of the
    propensity client makes one report and one request. *)
Lemma handleClientEvent_gates_witness :
  (forall flag,
     handleClientEvent_ (env := sample_env) (sample_ambient "" flag) (VRef 5)
       sample_server_world
     = (Normal tt, sample_server_world))
  /\ handleClientEvent_ (env := sample_env) (sample_ambient "" (VBool false)) (VRef 6)
       sample_server_world
     = (Normal tt, sample_server_world)
  /\ exists r s' context,
       handleClientEvent_ (env := sample_env) (sample_ambient "" (VBool false)) (VRef 1)
         sample_server_world
       = (Normal tt, s')
       /\ fetched s' = [r]
       /\ reports s' = [EventReport (VStr "paywall") context].
Proof.
  split; [|split].
  - intros flag.
    apply (proj1 (handleClientEvent_gates (env := sample_env)
                    (sample_ambient "" (VBool false)) (VRef 5) sample_server_world
                    (VNum 6) eq_refl eq_refl) eq_refl flag).
  - apply (proj1 (proj2 (handleClientEvent_gates (env := sample_env)
                    (sample_ambient "" (VBool false)) (VRef 6) sample_server_world
                    (VNum 1) eq_refl eq_refl)) eq_refl eq_refl).
  - destruct (proj2 (proj2 (handleClientEvent_gates (env := sample_env)
                    (sample_ambient "" (VBool false)) (VRef 1) sample_server_world
                    (VNum 3) eq_refl eq_refl)) eq_refl (VBool false)) as [_ Hforward].
    edestruct (Hforward (VNum 1) (VRef 2) (VBool true)) as (r & s' & Hrun & Hf & Hr);
      [reflexivity | reflexivity | reflexivity | reflexivity | reflexivity
      | vm_compute; reflexivity |].
    exists r, s'. eexists. split; [exact Hrun|]. split; [exact Hf|exact Hr].
Defined.

(** The subscription-state event with the parameters at 4 makes the one
    report of its state and its products, and the one request for them. *)
Lemma subscription_state_reported_once_witness :
  handleClientEvent_ (env := sample_env) (sample_ambient "" (VBool false)) (VRef 3)
    sample_server_world
  = (Normal tt,
     {| server := new_PropensityServer "pub1";
        heap := sample_store;
        fetched :=
          [{| url := "https://ads.example/subopt/data?states=pub1%3As&extrainfo=p&u_tz=240&v=1&cdm=news.example";
              method := "GET"; credentials := "include" |}];
        reports := [SubscriptionStateReport (VStr "s") (VStr "p")] |}).
Proof.
  destruct (subscription_state_reported_once (env := sample_env)
              (sample_ambient "" (VBool false)) (VRef 3) sample_server_world
              (VNum 3) (VNum 3) (VRef 4)
              eq_refl eq_refl (or_intror eq_refl) eq_refl eq_refl eq_refl)
    as [Hpresent _].
  destruct (Hpresent eq_refl) as [_ Hrun].
  refine (eq_trans Hrun _). vm_compute. reflexivity.
Defined.

(** C7, against the claim.  [logSwgEvent] with the subscription-state type
    and nothing else is accepted and schedules the event it has built at 9,
    whose parameters are [null].  With the flag on that event passes both
    gates of [handleClientEvent_], which throws at [state]: no
    subscription-state report is made and no request leaves. *)
Lemma bare_subscription_state_event_is_not_reported :
  let logged :=
    logSwgEvent (env := sample_env) proceeding_manager (VNum 3) VUndefined VUndefined
      sample_world in
  let s := {| server := new_PropensityServer "pub1"; heap := store (snd logged);
              fetched := []; reports := [] |} in
  let run :=
    handleClientEvent_ (env := sample_env) (sample_ambient "" (VBool true)) (VRef 9) s in
  awaiting (snd logged) = [{| act_event := VRef 9; act_eventParams := VUndefined |}]
  /\ Vget (heap s) (VRef 9) "eventType"
     = Normal (EVENT_SUBSCRIPTION_STATE (Env := sample_env))
  /\ Vget (heap s) (VRef 9) "eventOriginator" = Normal (SWG_CLIENT (Env := sample_env))
  /\ strict_equals (SWG_CLIENT (Env := sample_env)) (SHOWCASE_CLIENT (Env := sample_env))
     = false
  /\ Vget (heap s) (VRef 9) "additionalParameters" = Normal VNull
  /\ fst run = Throw (TypeError "Cannot read property state")
  /\ reports (snd run) = []
  /\ fetched (snd run) = [].
Proof.
  vm_compute. repeat split; reflexivity.
Qed.

(** The event of the propensity client is raised by the user and its
    parameters are the object at 2: what is serialised is that object, which
    has acquired [is_active]. *)
Lemma is_active_written_into_parameters_witness :
  fst (prepared sample_store (VRef 2) (VBool true)) = VRef 2
  /\ heap (snd (handleClientEvent_ (env := sample_env) (sample_ambient "" (VBool false))
                  (VRef 1) sample_server_world))
     = <[2 := object [("label", VStr "x"); ("is_active", VBool true)]]> sample_store.
Proof.
  destruct (is_active_written_into_parameters (env := sample_env)
              (sample_ambient "" (VBool false)) (VRef 1) sample_server_world
              (VNum 3) (VNum 1) (VRef 2) (VBool true)
              eq_refl eq_refl (or_intror eq_refl) eq_refl eq_refl eq_refl eq_refl eq_refl)
    as (_ & Hheap & _ & _ & Hplace & _).
  destruct (Hplace eq_refl 2 (object [("label", VStr "x")]) eq_refl eq_refl eq_refl)
    as [Hs Hh].
  split; [exact Hs|]. exact (eq_trans Hheap Hh).
Defined.

(** C8, against the claim.  The caller hands in an event whose parameters are
    the object [{label: 'x'}] at 2; after [handleClientEvent_] has forwarded
    the event, that same object is [{label: 'x', is_active: true}]: no copy
    was made. *)
Lemma is_active_modifies_the_callers_object :
  let s' := snd (handleClientEvent_ (env := sample_env) (sample_ambient "" (VBool false))
                   (VRef 1) sample_server_world) in
  Vget sample_store (VRef 1) "additionalParameters" = Normal (VRef 2)
  /\ heap sample_server_world !! 2 = Some (object [("label", VStr "x")])
  /\ heap s' !! 2 = Some (object [("label", VStr "x"); ("is_active", VBool true)])
  /\ heap s' !! 2 <> heap sample_server_world !! 2.
Proof.
  vm_compute. repeat split; try reflexivity. discriminate.
Qed.

(** Once a call has found the cookie, a later call under an empty cookie
    string returns the same identifier and leaves the server as it is. *)
Lemma clientId_kept_once_resolved_witness :
  let s1 := snd (getClientId_ (sample_ambient "__gads=ID1" VNull) sample_server_world) in
  fst (getClientId_ (sample_ambient "__gads=ID1" VNull) sample_server_world)
  = Normal (Some "ID1")
  /\ getClientId_ (sample_ambient "" VNull) s1 = (Normal (Some "ID1"), s1).
Proof.
  intros s1.
  destruct (clientId_kept_once_resolved (sample_ambient "__gads=ID1" VNull)
              sample_server_world) as (Hret & _ & _ & Hkeep & _).
  split; [exact Hret|].
  exact (Hkeep eq_refl (sample_ambient "" VNull)).
Defined.

(** C9, against the claim.  The first call finds no cookie and returns
    [null]; after the cookie string has changed, the second call derives the
    identifier from it, returns another value than the first, and rewrites the
    field. *)
Lemma clientId_derived_again_after_a_miss :
  let first := getClientId_ (sample_ambient "" VNull) sample_server_world in
  let second := getClientId_ (sample_ambient "__gads=ID1" VNull) (snd first) in
  fst first = Normal None
  /\ fst second = Normal (Some "ID1")
  /\ fst second <> fst first
  /\ clientId_ (server (snd second)) <> clientId_ (server (snd first)).
Proof.
  vm_compute. repeat split; try reflexivity; discriminate.
Qed.

(* ===================================================================== *)
(** * Further properties of the two files *)
(* ===================================================================== *)

(** ** [parsePropensityResponse_] *)

Lemma scoreDetail_of_unreadable (stn : string -> float) (entry : JsVal) :
  ~ readable entry ->
  scoreDetail_of stn entry = Throw (TypeError "Cannot read property score").
Proof. destruct entry; cbn; intros H; try reflexivity; now destruct H. Qed.

Lemma scoreDetail_of_normal (stn : string -> float) (entry : JsVal) (d : ScoreDetail) :
  scoreDetail_of stn entry = Normal d -> readable entry.
Proof. destruct entry; cbn; try discriminate; intros _; exact I. Qed.

Lemma scoreDetail_of_throws (stn : string -> float) (entry : JsVal) (e : Exn JsVal) :
  scoreDetail_of stn entry = Throw e -> exists what, e = TypeError what.
Proof.
  destruct (scoreDetail_of stn entry) as [d|e'] eqn:H; [discriminate|].
  intros Heq. injection Heq as <-.
  destruct entry; try (rewrite scoreDetail_of_readable in H by exact I; discriminate);
    cbn in H; injection H as <-; eauto.
Qed.

Lemma get_throws (v : JsVal) (k : string) (e : Exn JsVal) :
  get v k = Throw e -> ~ readable v /\ exists what, e = TypeError what.
Proof.
  destruct v; cbn; intros H;
    try (injection H as <-; split; [intros [] | eauto]);
    repeat match type of H with
           | context [if ?b then _ else _] => destruct b
           | context [match ?o with Some _ => _ | None => _ end] => destruct o
           end; discriminate H.
Qed.

Lemma score_loop_throws (stn : string -> float) (scores : JsVal) :
  forall fuel i acc e,
    score_loop stn fuel i scores acc = Some (Throw e) -> exists what, e = TypeError what.
Proof.
  induction fuel as [|fuel IH]; intros i acc e; cbn [score_loop]; [discriminate|].
  destruct (below_length stn i scores) as [[|]|e0] eqn:Hb.
  - destruct (get scores (decimal i)) as [entry|e1] eqn:Hg; cbn [bind].
    + destruct (scoreDetail_of stn entry) as [d|e2] eqn:Hd.
      * apply IH.
      * intros H. injection H as <-. now apply (scoreDetail_of_throws stn entry).
    + intros H. injection H as <-. now apply (get_throws scores (decimal i)).
  - discriminate.
  - intros H. injection H as <-. unfold below_length in Hb.
    destruct scores as [| | | | | |props]; cbn in Hb; try discriminate;
      try (injection Hb as <-; eauto; fail).
    destruct (assoc "length" props); discriminate Hb.
Qed.

(** X1.  Whatever the response, what [parsePropensityResponse_] returns is
    one of three objects and never the empty object it starts from: the
    'No valid response' error when the header is falsy, the error of the
    response when the header is truthy and its [ok] falsy, and a list of
    scores under [ok: true] when both are truthy.  What it throws is a
    [TypeError]. *)
Theorem parsePropensityResponse_result_shape
    (stn : string -> float) (fuel : nat) (response : JsVal) :
  match parsePropensityResponse_ stn fuel response with
  | Some (Normal result) =>
      let header := field response "header" in
      (truthy header = false /\ result = no_valid_response)
      \/ (truthy header = true /\ truthy (field header "ok") = false
          /\ result = HeaderBody false (BodyError (field response "error")))
      \/ (truthy header = true /\ truthy (field header "ok") = true
          /\ exists details, result = HeaderBody true (BodyScores details))
  | Some (Throw e) => exists what, e = TypeError what
  | None => True
  end.
Proof.
  unfold parsePropensityResponse_, field.
  destruct (get response "header") as [header|e] eqn:Hh.
  2:{ now apply (get_throws response "header"). }
  destruct (truthy header) eqn:Ht; cbn [negb].
  2:{ left. now split. }
  destruct (get header "ok") as [ok|e] eqn:Hok.
  2:{ now apply (get_throws header "ok"). }
  destruct (truthy ok) eqn:Hto.
  - destruct (get response "scores") as [scores|e] eqn:Hs.
    2:{ now apply (get_throws response "scores"). }
    destruct (score_loop stn fuel 0 scores []) as [[details|e]|] eqn:Hl; [| |exact I].
    + right; right. repeat split; eauto.
    + now apply (score_loop_throws stn scores fuel 0 []).
  - destruct (get response "error") as [error|e] eqn:He.
    2:{ now apply (get_throws response "error"). }
    right; left. repeat split; auto.
Qed.

Lemma score_loop_null_entry (stn : string -> float) (before after : list JsVal)
    (bad : JsVal) :
  Forall readable before -> ~ readable bad ->
  forall fuel i acc,
    i <= List.length before -> List.length before - i < fuel ->
    score_loop stn fuel i (Arr (before ++ bad :: after)) acc
    = Some (Throw (TypeError "Cannot read property score")).
Proof.
  intros Hall Hbad. induction fuel as [|fuel IH]; intros i acc Hi Hfuel; [lia|].
  cbn [score_loop below_length].
  assert (Hlt : Nat.ltb i (List.length (before ++ bad :: after)) = true).
  { apply Nat.ltb_lt. rewrite List.length_app. cbn. lia. }
  rewrite Hlt, get_array_index by now apply Nat.ltb_lt.
  cbn [bind].
  destruct (Nat.eq_dec i (List.length before)) as [->|Hne].
  - rewrite List.nth_middle. now rewrite scoreDetail_of_unreadable.
  - rewrite List.app_nth1 by lia.
    rewrite scoreDetail_of_readable.
    + apply IH; lia.
    + apply (proj1 (List.Forall_forall readable before) Hall). apply List.nth_In. lia.
Qed.

(** X2.  When the header says [ok] and [scores] is an array one of whose
    entries is [null], the parser throws a [TypeError] at that entry, however
    many well-formed entries come before or after it: no partial list is
    returned. *)
Theorem parsePropensityResponse_null_entry
    (stn : string -> float) (fuel : nat) (response : JsVal)
    (before after : list JsVal) (bad : JsVal) :
  readable response ->
  truthy (field response "header") = true ->
  truthy (field (field response "header") "ok") = true ->
  field response "scores" = Arr (before ++ bad :: after) ->
  Forall readable before ->
  ~ readable bad ->
  List.length before < fuel ->
  parsePropensityResponse_ stn fuel response
  = Some (Throw (TypeError "Cannot read property score"))
  /\ getPropensity stn fuel response
     = Some (Rejected (TypeError "Cannot read property score")).
Proof.
  intros Hr Hh Hok Hs Hall Hbad Hfuel.
  assert (Hparse : parsePropensityResponse_ stn fuel response
                   = Some (Throw (TypeError "Cannot read property score"))).
  { unfold parsePropensityResponse_.
    rewrite !(get_readable response) by assumption. rewrite Hh. cbn [negb].
    rewrite (get_readable (field response "header")) by now apply truthy_readable.
    rewrite Hok, Hs.
    now rewrite (score_loop_null_entry stn before after bad Hall Hbad) by lia. }
  split; [exact Hparse|]. unfold getPropensity. now rewrite Hparse.
Qed.

(** *** The loop always ends *)

Lemma assoc_In {A : Type} (k : string) (props : list (string * A)) :
  assoc k props <> None -> List.In k (List.map fst props).
Proof.
  induction props as [|[k' v] rest IH]; cbn; [congruence|].
  destruct (String.eqb_spec k k') as [->|Hne]; [now left|].
  intros H. right. now apply IH.
Qed.

(** An object that has the properties [0] to [i - 1] has at least [i]
    properties. *)
Lemma indexed_properties_bound {A : Type} (props : list (string * A)) (i : nat) :
  (forall j, j < i -> assoc (decimal j) props <> None) -> i <= List.length props.
Proof.
  intros H.
  assert (Hle : List.length (List.map decimal (List.seq 0 i))
                <= List.length (List.map fst props));
    [|now rewrite !List.length_map, List.length_seq in Hle].
  apply List.NoDup_incl_length.
  - apply Finite.Injective_map_NoDup; [exact decimal_inj | apply List.seq_NoDup].
  - intros k Hk. apply List.in_map_iff in Hk. destruct Hk as (j & <- & Hj).
    apply List.in_seq in Hj. apply assoc_In, H. lia.
Qed.

Lemma reached_le (scores : JsVal) (i : nat) : reached scores i -> i <= visits scores.
Proof.
  destruct scores; cbn; try lia. apply indexed_properties_bound.
Qed.

Lemma reached_next (stn : string -> float) (scores entry : JsVal) (i : nat) :
  reached scores i ->
  below_length stn i scores = Normal true ->
  get scores (decimal i) = Normal entry ->
  readable entry ->
  reached scores (S i).
Proof.
  destruct scores as [| | | |s|l|props]; cbn [reached below_length get];
    intros Hi Hb Hg Hr; try discriminate Hg.
  - injection Hg as <-. destruct Hr.
  - injection Hg as <-. destruct Hr.
  - injection Hb as Hb. apply Nat.ltb_lt in Hb. lia.
  - injection Hb as Hb. apply Nat.ltb_lt in Hb. lia.
  - intros j Hj. destruct (Nat.eq_dec j i) as [->|Hne]; [|apply Hi; lia].
    destruct (assoc (decimal i) props); [discriminate|].
    injection Hg as <-. destruct Hr.
Qed.

Lemma score_loop_more_fuel (stn : string -> float) (scores : JsVal) :
  forall fuel fuel' i acc r,
    score_loop stn fuel i scores acc = Some r -> fuel <= fuel' ->
    score_loop stn fuel' i scores acc = Some r.
Proof.
  induction fuel as [|fuel IH]; intros fuel' i acc r; cbn [score_loop]; [discriminate|].
  intros H Hle. destruct fuel' as [|fuel']; [lia|]. cbn [score_loop].
  destruct (below_length stn i scores) as [[|]|e]; try assumption.
  destruct (let! result := get scores (decimal i) in scoreDetail_of stn result)
    as [d|e]; [|assumption].
  apply (IH fuel'); [assumption|lia].
Qed.

Lemma score_loop_terminates (stn : string -> float) (scores : JsVal) :
  forall fuel i acc,
    reached scores i -> visits scores - i < fuel ->
    exists r, score_loop stn fuel i scores acc = Some r.
Proof.
  induction fuel as [|fuel IH]; intros i acc Hi Hfuel; [lia|].
  cbn [score_loop].
  destruct (below_length stn i scores) as [[|]|e] eqn:Hb; eauto.
  destruct (get scores (decimal i)) as [entry|e] eqn:Hg; cbn [bind]; eauto.
  destruct (scoreDetail_of stn entry) as [d|e] eqn:Hd; eauto.
  assert (Hnext : reached scores (S i)).
  { apply (reached_next stn scores entry); auto.
    now apply (scoreDetail_of_normal stn entry d). }
  apply IH; [assumption|]. apply reached_le in Hnext. lia.
Qed.

Lemma reached_0 (scores : JsVal) : reached scores 0.
Proof. destruct scores; cbn; lia. Qed.

(** X3.  The parser ends on every response: with fuel [enough_fuel response]
    or more it returns a result or throws, the same whatever the fuel.  The
    loop over [scores] is bounded by the entries that are there, whatever
    [scores.length] says. *)
Theorem parsePropensityResponse_terminates (stn : string -> float) (response : JsVal) :
  exists result,
    forall fuel, enough_fuel response <= fuel ->
      parsePropensityResponse_ stn fuel response = Some result.
Proof.
  unfold parsePropensityResponse_, enough_fuel, field.
  destruct (get response "header") as [header|e]; [|eauto].
  destruct (negb (truthy header)); [eauto|].
  destruct (get header "ok") as [ok|e]; [|eauto].
  destruct (truthy ok).
  2:{ destruct (get response "error"); eauto. }
  destruct (get response "scores") as [scores|e]; [|eauto].
  destruct (score_loop_terminates stn scores (S (visits scores)) 0 [] (reached_0 scores))
    as [r Hr]; [lia|].
  exists (match r with
          | Normal scoreDetails => Normal (HeaderBody true (BodyScores scoreDetails))
          | Throw e => Throw e
          end).
  intros fuel Hfuel.
  rewrite (score_loop_more_fuel stn scores _ fuel 0 [] r Hr Hfuel).
  destruct r; reflexivity.
Qed.

(** ** The event manager *)

Section EventManagerMore.

Context {env : Env}.

(** *** Registration *)

Lemma register_all_from (requests : list (Role * Value)) :
  forall m : ClientEventManager,
    listeners_ (register_all requests m) = listeners_ m ++ accepted AsListener requests
    /\ filterers_ (register_all requests m) = filterers_ m ++ accepted AsFilterer requests
    /\ lastAction_ (register_all requests m) = lastAction_ m.
Proof.
  induction requests as [|[r consumer] rest IH]; intros m.
  - cbn. now rewrite !app_nil_r.
  - cbn [register_all]. unfold accepted. cbn [List.filter fst snd].
    unfold registerEventListener, registerEventFilterer.
    destruct r, (isFunction consumer); cbn [negb List.map];
      destruct (IH m) as (Hl & Hf & Ha);
      try (rewrite Hl, Hf, Ha; auto; fail);
      match goal with
      | |- context [register_all rest ?m'] => destruct (IH m') as (Hl' & Hf' & Ha')
      end;
      rewrite Hl', Hf', Ha'; cbn; rewrite <- ?app_assoc; auto.
Qed.

(** X4.  Whatever consumers a client asks to be registered, the listeners
    of the manager are exactly the functions it asked for as listeners, in the
    order of the requests, and likewise for the filterers: a request for
    something that is not a function leaves no trace, nothing registered is
    ever dropped or reordered, and every entry of a registry can be called. *)
Theorem registries_hold_the_registered_functions (requests : list (Role * Value)) :
  let m := register_all requests new_ClientEventManager in
  listeners_ m = accepted AsListener requests
  /\ filterers_ m = accepted AsFilterer requests
  /\ Forall (fun consumer => isFunction consumer = true) (listeners_ m ++ filterers_ m).
Proof.
  destruct (register_all_from requests new_ClientEventManager) as (Hl & Hf & _).
  cbn in Hl, Hf. cbn zeta. rewrite Hl, Hf. repeat split.
  apply List.Forall_forall. intros consumer Hin.
  apply List.in_app_or in Hin. unfold accepted in Hin.
  destruct Hin as [Hin|Hin]; apply List.in_map_iff in Hin;
    destruct Hin as ([r c] & <- & Hin); apply List.filter_In in Hin;
    destruct Hin as [_ Hin]; cbn in *; destruct r; congruence.
Qed.

(** *** A consumer registered last *)

Lemma for_listeners_app (listeners more : list Value) :
  forall (pos : nat) (event eventParams : Value) (w : World),
    for_listeners (listeners ++ more) pos event eventParams w
    = for_listeners more (pos + List.length listeners) event eventParams
        (snd (for_listeners listeners pos event eventParams w)).
Proof.
  induction listeners as [|listener rest IH]; intros pos event eventParams w.
  - cbn. now rewrite Nat.add_0_r.
  - cbn [app List.length]. rewrite !for_listeners_cons.
    destruct (call AsListener pos listener [event; eventParams] w) as [[x|e] w1];
      rewrite IH;
      replace (S pos + List.length rest) with (pos + S (List.length rest)) by lia;
      reflexivity.
Qed.


(** X5.  A listener registered after the others changes nothing of what a
    run did without it: the same verdict of the filterers, the same calls in
    the same order.  When no filterer cancels, it is called once more at the
    end, at its place in the registry, with the event and its parameters;
    when one cancels, it is not called. *)
Theorem listener_registered_last_is_called_last
    (listener : Value) (m m' : ClientEventManager) (a : Activation) (w : World) :
  registerEventListener listener m = Normal m' ->
  dispatch_cancelled m' a w = dispatch_cancelled m a w
  /\ (dispatch_cancelled m a w = true ->
      handleEvent_resume m' a w = handleEvent_resume m a w)
  /\ (dispatch_cancelled m a w = false ->
      exists c,
        calls_of (handleEvent_resume m' a) w
        = calls_of (handleEvent_resume m a) w ++ [c]
        /\ role c = AsListener
        /\ position c = List.length (listeners_ m)
        /\ arguments c = [act_event a; act_eventParams a]
        /\ outcome c
           = fst (call AsListener (List.length (listeners_ m)) listener
                    [act_event a; act_eventParams a]
                    (snd (handleEvent_resume m a w)))).
Proof.
  unfold registerEventListener.
  destruct (isFunction listener); cbn [negb]; [|discriminate].
  intros Hm. injection Hm as <-.
  set (m' := {| listeners_ := listeners_ m ++ [listener]; filterers_ := filterers_ m;
                lastAction_ := lastAction_ m |}).
  destruct (for_filterers_spec (filterers_ m) 0 (act_event a) w)
    as (returned & wf & fcalls & Hrun & Hg & _).
  destruct (for_listeners_spec (listeners_ m) 0 (act_event a) (act_eventParams a) wf)
    as (wl & lcalls & Hrunl & Hgl & _).
  assert (Hcm : dispatch_cancelled m a w = returned)
    by (unfold dispatch_cancelled; now rewrite Hrun).
  assert (Hcm' : dispatch_cancelled m' a w = returned)
    by (unfold dispatch_cancelled; cbn [m' filterers_]; now rewrite Hrun).
  assert (Hres : handleEvent_resume m a w
                 = if returned then (Normal tt, wf) else (Normal tt, wl)).
  { unfold handleEvent_resume, and_then. rewrite Hrun.
    destruct returned; [reflexivity|exact Hrunl]. }
  assert (Hres' : handleEvent_resume m' a w
                  = if returned then (Normal tt, wf)
                    else for_listeners [listener] (List.length (listeners_ m))
                           (act_event a) (act_eventParams a) wl).
  { unfold handleEvent_resume, and_then. cbn [m' filterers_ listeners_]. rewrite Hrun.
    destruct returned; [reflexivity|].
    rewrite for_listeners_app, Hrunl. reflexivity. }
  rewrite Hcm, Hcm'. split; [reflexivity|]. split.
  - intros ->. now rewrite Hres, Hres'.
  - intros ->.
    destruct (call_grows AsListener (List.length (listeners_ m)) listener
                [act_event a; act_eventParams a] wl)
      as (c & Hr & Hp & Ha & Ho & Hi & _).
    exists c. unfold calls_of. rewrite Hres, Hres'. cbn [snd].
    cbv beta iota zeta delta [for_listeners and_then try_catch ret log update].
    assert (Hinv : invoked wl = invoked w ++ (fcalls ++ lcalls)).
    { destruct (grows_trans w wf wl fcalls lcalls Hg Hgl) as (-> & _). reflexivity. }
    repeat split; auto.
    destruct (call AsListener (List.length (listeners_ m)) listener
                [act_event a; act_eventParams a] wl) as [[x|e] w2]; cbn in *;
      rewrite Hi, Hinv, <- (app_assoc (invoked w)), !drop_app_length; reflexivity.
Qed.



(** *** [isPublisherEvent] *)

(** X8.  [isPublisherEvent] throws on [null] and [undefined] and otherwise
    answers: yes exactly when the originator of the event is strictly equal
    to [PROPENSITY_CLIENT], [PUBLISHER_CLIENT] or [AMP_CLIENT], hence no for
    an originator that is strictly equal to any value distinct from these
    three, and for an event that has no originator unless one of the three is
    [undefined]. *)
Theorem isPublisherEvent_classifies (h : Store) (event : Value) :
  (is_nullish event = true -> exists what, isPublisherEvent h event = Throw (TypeError what))
  /\ (is_nullish event = false ->
      let eventOriginator := field_of h event "eventOriginator" in
      exists answer,
        isPublisherEvent h event = Normal answer
        /\ (answer = true <->
            strict_equals eventOriginator PROPENSITY_CLIENT = true
            \/ strict_equals eventOriginator PUBLISHER_CLIENT = true
            \/ strict_equals eventOriginator AMP_CLIENT = true)
        /\ (forall other,
              strict_equals other PROPENSITY_CLIENT = false ->
              strict_equals other PUBLISHER_CLIENT = false ->
              strict_equals other AMP_CLIENT = false ->
              strict_equals other eventOriginator = true ->
              answer = false)).
Proof.
  unfold isPublisherEvent. split.
  - destruct event; cbn; try discriminate; eauto.
  - intros Hnn. rewrite (Vget_not_nullish h event "eventOriginator" Hnn). cbn zeta.
    eexists. split; [reflexivity|]. split.
    + rewrite !orb_true_iff. tauto.
    + intros other H1 H2 H3 Heq.
      rewrite <- !(strict_equals_trans _ _ _ Heq), H1, H2, H3. reflexivity.
Qed.

(** *** [logSwgEvent] *)

Lemma isObject_insert_fresh (h : Store) (o : Object) (v : Value) :
  isObject h v = true -> isObject (<[fresh (dom h) := o]> h) v = true.
Proof.
  unfold isObject, kind_of. destruct v; try discriminate.
  destruct (h !! l) eqn:Hl; [|discriminate].
  rewrite lookup_insert_ne; [now rewrite Hl|].
  intros Heq. rewrite <- Heq, fresh_location_unused in Hl. discriminate.
Qed.

(** X9.  [logSwgEvent] logs a new object as the event: its type is the one
    given, its originator is [SWG_CLIENT], its user-action mark and its
    parameters are the ones given, or [false] and [null] where the caller
    gave [undefined]; no object that existed is touched.  When the type is a
    member of [AnalyticsEvent], the mark missing or a boolean and the
    parameters missing or an object, the call returns and has suspended one
    activation for that event, whose second argument is [undefined]; when the
    type is no member, it throws and suspends nothing. *)
Theorem logSwgEvent_logs_a_core_event
    (m : ClientEventManager) (eventType isFromUserAction eventParams : Value) (w : World) :
  let event := VRef (fresh (dom (store w))) in
  let mark := or_default isFromUserAction (VBool false) in
  let parameters := or_default eventParams VNull in
  let after := snd (logSwgEvent m eventType isFromUserAction eventParams w) in
  (Vget (store after) event "eventType" = Normal eventType
   /\ Vget (store after) event "eventOriginator" = Normal SWG_CLIENT
   /\ Vget (store after) event "isFromUserAction" = Normal mark
   /\ Vget (store after) event "additionalParameters" = Normal parameters)
  /\ (forall l o, store w !! l = Some o -> store after !! l = Some o)
  /\ invoked after = invoked w
  /\ (isEnumValue AnalyticsEvent eventType = true ->
      isEnumValue EventOriginator SWG_CLIENT = true ->
      is_nullish mark = true \/ isBoolean mark = true ->
      is_nullish parameters = true \/ isObject (store w) parameters = true ->
      is_normal_run (fst (logSwgEvent m eventType isFromUserAction eventParams w)) = true
      /\ awaiting after
         = awaiting w ++ [{| act_event := event; act_eventParams := VUndefined |}])
  /\ (isEnumValue AnalyticsEvent eventType = false ->
      is_normal_run (fst (logSwgEvent m eventType isFromUserAction eventParams w)) = false
      /\ awaiting after = awaiting w).
Proof.
  intros event mark parameters after.
  set (o := {| kind := PlainObject;
               properties := [("eventType", eventType); ("eventOriginator", SWG_CLIENT);
                              ("isFromUserAction", mark);
                              ("additionalParameters", parameters)] |}).
  set (h1 := <[fresh (dom (store w)) := o]> (store w)).
  assert (Hobj : isObject h1 event = true).
  { unfold isObject, kind_of, event, h1. now rewrite lookup_insert_eq. }
  assert (Hget : forall k, Vget h1 event k = Normal (default VUndefined (assoc k (properties o)))).
  { intros k. unfold Vget, event, h1. now rewrite lookup_insert_eq. }
  assert (Hrun : logSwgEvent m eventType isFromUserAction eventParams w
                 = match validateEvent h1 event with
                   | Normal _ =>
                       (Normal {| listeners_ := listeners_ m; filterers_ := filterers_ m;
                                  lastAction_ := Some {| act_event := event;
                                                         act_eventParams := VUndefined |} |},
                        suspend {| act_event := event; act_eventParams := VUndefined |}
                          (with_store h1 w))
                   | Throw e => (Throw e, with_store h1 w)
                   end).
  { unfold logSwgEvent, logEvent, handleEvent_, and_then, update, ret. cbn [store with_store].
    fold mark parameters o h1 event.
    destruct (validateEvent h1 event) as [[]|e]; reflexivity. }
  assert (Hstore : store after = h1).
  { unfold after. rewrite Hrun. destruct (validateEvent h1 event); reflexivity. }
  assert (Hinvoked : invoked after = invoked w).
  { unfold after. rewrite Hrun. destruct (validateEvent h1 event); reflexivity. }
  split; [|split; [|split; [|split]]].
  - rewrite Hstore, !Hget. cbn. auto.
  - intros l o' Hl. rewrite Hstore. unfold h1. rewrite lookup_insert_ne; [assumption|].
    intros Heq. rewrite <- Heq, fresh_location_unused in Hl. discriminate.
  - exact Hinvoked.
  - intros Ht Ho Hmark Hparams.
    assert (Hvalid : validateEvent h1 event = Normal tt).
    { unfold validateEvent. rewrite Hobj, !Hget. cbn [negb properties o assoc String.eqb
        Ascii.eqb Bool.eqb default].
      cbn. rewrite Ht, Ho. cbn [negb].
      assert (Hp : negb (isObject h1 parameters) && negb (is_nullish parameters) = false).
      { destruct Hparams as [-> | Hp]; [now rewrite andb_false_r|].
        unfold h1. now rewrite (isObject_insert_fresh _ o _ Hp). }
      assert (Hm : negb (is_nullish mark) && negb (isBoolean mark) = false).
      { destruct Hmark as [-> | ->]; [reflexivity | now rewrite andb_false_r]. }
      now rewrite Hp, Hm. }
    unfold after. rewrite Hrun, Hvalid. split; reflexivity.
  - intros Ht.
    assert (Hinvalid : exists e, validateEvent h1 event = Throw e).
    { apply validateEvent_throws_iff. right; left. unfold field_of.
      rewrite Hget. cbn. exact Ht. }
    destruct Hinvalid as [e He]. unfold after. rewrite Hrun, He. split; reflexivity.
Qed.

End EventManagerMore.

(** ** The propensity server *)

(** *** The cookie pattern *)

Lemma span_Forall (p : ascii -> bool) (s : list ascii) :
  Forall (fun c => p c = true) (fst (span p s)).
Proof.
  induction s as [|c s IH]; cbn; [constructor|].
  destruct (p c) eqn:Hc; [|constructor].
  destruct (span p s) as [run rest]. cbn in *. now constructor.
Qed.

Lemma span_app (p : ascii -> bool) (run rest : list ascii) :
  Forall (fun c => p c = true) run ->
  (forall c rest', rest = c :: rest' -> p c = false) ->
  span p (run ++ rest) = (run, rest).
Proof.
  intros Hrun Hrest. induction Hrun as [|c run Hc _ IH]; cbn.
  - destruct rest as [|c rest']; [reflexivity|]. cbn. now rewrite (Hrest c rest' eq_refl).
  - now rewrite Hc, IH.
Qed.

Lemma strip_prefix_app (prefix s : list ascii) :
  strip_prefix prefix (prefix ++ s) = Some s.
Proof.
  induction prefix as [|c prefix IH]; cbn; [reflexivity|].
  now rewrite Ascii.eqb_refl.
Qed.

Lemma is_space_not_semicolon (c : ascii) : is_space c = true -> not_semicolon c = true.
Proof. destruct c as [[] [] [] [] [] [] [] []]; vm_compute; intros H; congruence. Qed.

(** The name at the start of a cookie: after any spaces comes [__gads=] and a
    value [v] that does not begin with a space and runs to the next semicolon
    or to the end. *)
Lemma match_tail_found (sp v rest : list ascii) :
  Forall (fun c => is_space c = true) sp ->
  v <> [] ->
  Forall (fun c => not_semicolon c = true) v ->
  (forall c v', v = c :: v' -> is_space c = false) ->
  (forall c rest', rest = c :: rest' -> not_semicolon c = false) ->
  match_tail (sp ++ gads ++ "="%char :: v ++ rest) = Some (sp ++ gads ++ ["="%char], v).
Proof.
  intros Hsp Hv Hns Hfirst Hrest. unfold match_tail.
  rewrite (span_app is_space sp) by (assumption || (intros c r H; now injection H as <-)).
  rewrite strip_prefix_app.
  change (span is_space ("="%char :: v ++ rest)) with (@nil ascii, "="%char :: v ++ rest).
  cbv beta iota.
  assert (Hs4 : span is_space (v ++ rest) = ([], v ++ rest)).
  { destruct v as [|c v']; [congruence|]. cbn. now rewrite (Hfirst c v' eq_refl). }
  rewrite Hs4, (span_app not_semicolon v rest) by assumption.
  destruct v; [congruence|]. reflexivity.
Qed.

(** Where no underscore has been seen so far, the name cannot begin. *)
Lemma match_tail_before_the_name (pre tail : list ascii) :
  Forall (fun c => Ascii.eqb c "_"%char = false) pre ->
  match_tail (pre ++ ";"%char :: tail) = None.
Proof.
  intros Hpre. unfold match_tail.
  assert (H : strip_prefix gads (snd (span is_space (pre ++ ";"%char :: tail))) = None).
  { induction Hpre as [|c pre Hc _ IH]; [reflexivity|].
    cbn [app span]. destruct (is_space c) eqn:Hsp.
    - destruct (span is_space (pre ++ ";"%char :: tail)). exact IH.
    - cbn [snd]. unfold gads. cbn [strip_prefix]. rewrite Ascii.eqb_sym. now rewrite Hc. }
  destruct (span is_space (pre ++ ";"%char :: tail)) as [sp s1]. cbn [snd] in H.
  now rewrite H.
Qed.

Lemma search_before_the_name (pre tail : list ascii) (m : list string) :
  Forall (fun c => Ascii.eqb c "_"%char = false) pre ->
  match_here false (";"%char :: tail) = Some m ->
  forall at_start, search at_start (pre ++ ";"%char :: tail) = Some m.
Proof.
  intros Hpre Hm. induction Hpre as [|c pre Hc Hpre IH]; intros at_start.
  - cbn [app search]. unfold match_here in *.
    destruct at_start; [|now rewrite Hm].
    pose proof (match_tail_before_the_name [] tail (List.Forall_nil _)) as Hnone.
    cbn [app] in Hnone. now rewrite Hnone, Hm.
  - cbn [app search].
    assert (Hnone : match_here at_start (c :: pre ++ ";"%char :: tail) = None).
    { unfold match_here.
      replace (if at_start then match_tail (c :: pre ++ ";"%char :: tail) else None)
        with (@None (list ascii * list ascii))
        by (destruct at_start; [|reflexivity];
            pose proof (match_tail_before_the_name (c :: pre) tail
                          (@List.Forall_cons _ _ c pre Hc Hpre)) as Hnone;
            cbn [app] in Hnone; now rewrite Hnone).
      destruct (Ascii.eqb c ";"%char) eqn:Hsemi.
      - apply Ascii.eqb_eq in Hsemi. subst c.
        now rewrite (match_tail_before_the_name pre tail).
      - destruct c as [[] [] [] [] [] [] [] []]; try reflexivity; discriminate Hsemi. }
    rewrite Hnone. apply IH.
Qed.

Lemma search_here (at_start : bool) (s : list ascii) (m : list string) :
  match_here at_start s = Some m -> search at_start s = Some m.
Proof. intros H. destruct s; cbn [search]; now rewrite H. Qed.

(** X10.  In a cookie string where [__gads=v] is the first cookie, or comes
    after a semicolon before which no underscore occurs, the value [v] being
    non-empty, free of semicolons, not beginning with a space and running to
    the next semicolon or to the end, the pattern captures exactly [v]: an
    unresolved server caches and returns [encodeURIComponent(v)]. *)
Theorem getClientId_finds_the_cookie (lead sp v rest : list ascii) :
  lead = []
  \/ (exists pre, lead = pre ++ [";"%char]
                  /\ Forall (fun c => Ascii.eqb c "_"%char = false) pre) ->
  Forall (fun c => is_space c = true) sp ->
  v <> [] ->
  Forall (fun c => not_semicolon c = true) v ->
  (forall c v', v = c :: v' -> is_space c = false) ->
  (forall c rest', rest = c :: rest' -> not_semicolon c = false) ->
  let cookie := string_of_list_ascii (lead ++ sp ++ gads ++ "="%char :: v ++ rest) in
  option_map pop (match_gads cookie) = Some (string_of_list_ascii v)
  /\ forall (amb : Ambient) (s : ServerWorld),
       document_cookie amb = cookie ->
       truthy_id (clientId_ (server s)) = false ->
       fst (getClientId_ amb s)
       = Normal (Some (encodeURIComponent (string_of_list_ascii v)))
       /\ clientId_ (server (snd (getClientId_ amb s)))
          = Some (encodeURIComponent (string_of_list_ascii v)).
Proof.
  intros Hlead Hsp Hv Hns Hfirst Hrest cookie.
  pose proof (match_tail_found sp v rest Hsp Hv Hns Hfirst Hrest) as Htail.
  assert (Hmatch : exists whole first,
             match_gads cookie = Some [whole; first; string_of_list_ascii v]).
  { unfold match_gads, cookie. rewrite list_ascii_of_string_of_list_ascii.
    destruct Hlead as [-> | (pre & -> & Hpre)].
    - cbn [app]. eexists _, _. apply search_here. unfold match_here.
      rewrite Htail. reflexivity.
    - rewrite <- app_assoc. cbn [app]. eexists _, _.
      apply search_before_the_name; [assumption|].
      unfold match_here. rewrite Htail. reflexivity. }
  destruct Hmatch as (whole & first & Hmatch).
  split; [now rewrite Hmatch|].
  intros amb s Hcookie Hnone. rewrite getClientId_resolved. cbn [fst snd server].
  unfold resolved. rewrite Hnone, Hcookie, Hmatch. cbn. split; reflexivity.
Qed.

Lemma match_tail_group_chars (s before group : list ascii) :
  match_tail s = Some (before, group) ->
  group <> [] /\ Forall (fun c => not_semicolon c = true) group.
Proof.
  intros H. split; [now apply (match_tail_group s before)|].
  revert H. unfold match_tail.
  destruct (span is_space s) as [sp1 s1].
  destruct (strip_prefix gads s1) as [s2|]; [|discriminate].
  destruct (span is_space s2) as [sp2 s3].
  destruct s3 as [|c s4]; [discriminate|].
  destruct (Ascii.eqb c "="%char) eqn:Hc.
  2:{ destruct c as [[] [] [] [] [] [] [] []]; try discriminate; discriminate Hc. }
  apply Ascii.eqb_eq in Hc. subst c.
  pose proof (span_Forall is_space s4) as Hsp3.
  destruct (span is_space s4) as [sp3 s5].
  pose proof (span_Forall not_semicolon s5) as Hrun.
  destruct (span not_semicolon s5) as [run rest]. cbn [fst] in *.
  destruct run as [|r run'].
  - destruct (List.rev sp3) as [|c before'] eqn:Hrev; [discriminate|].
    intros H. injection H as _ <-. constructor; [|constructor].
    apply is_space_not_semicolon.
    apply (proj1 (List.Forall_forall _ sp3) Hsp3).
    apply List.in_rev. rewrite Hrev. now left.
  - intros H. injection H as _ <-. exact Hrun.
Qed.

Lemma match_here_result (at_start : bool) (s : list ascii) (m : list string) :
  match_here at_start s = Some m ->
  exists whole first group,
    m = [whole; first; string_of_list_ascii group]
    /\ (first = ""%string \/ first = ";"%string)
    /\ group <> []
    /\ Forall (fun c => not_semicolon c = true) group.
Proof.
  unfold match_here.
  destruct (if at_start then match_tail s else None) as [[before group]|] eqn:Hfirst.
  - intros H. injection H as <-. eexists _, _, group. split; [reflexivity|].
    split; [now left|].
    destruct at_start; [|discriminate]. now apply (match_tail_group_chars s before).
  - destruct s as [|c s']; [discriminate|].
    destruct (Ascii.eqb c ";"%char) eqn:Hc.
    2:{ destruct c as [[] [] [] [] [] [] [] []]; try discriminate; discriminate Hc. }
    apply Ascii.eqb_eq in Hc. subst c.
    destruct (match_tail s') as [[before group]|] eqn:Htail; [|discriminate].
    intros H. injection H as <-. eexists _, _, group. split; [reflexivity|].
    split; [now right|]. now apply (match_tail_group_chars s' before).
Qed.

(** X11.  Whenever the pattern matches a cookie string, the array of the
    match has three entries, the second being empty or a semicolon, and the
    last one, which [pop] takes, is the captured value: it is never empty and
    never holds a semicolon. *)
Theorem match_gads_captures_a_value (cookie : string) (m : list string) :
  match_gads cookie = Some m ->
  exists whole first,
    m = [whole; first; pop m]
    /\ (first = ""%string \/ first = ";"%string)
    /\ pop m <> ""%string
    /\ Forall (fun c => c <> ";"%char) (list_ascii_of_string (pop m)).
Proof.
  unfold match_gads.
  assert (Hsearch : forall s at_start,
             search at_start s = Some m ->
             exists at_start' s', match_here at_start' s' = Some m).
  { induction s as [|c s IH]; intros at_start; cbn [search].
    - destruct (match_here at_start []) eqn:Hm; [|discriminate].
      intros H. injection H as <-. eauto.
    - destruct (match_here at_start (c :: s)) eqn:Hm.
      + intros H. injection H as <-. eauto.
      + apply IH. }
  intros H. destruct (Hsearch _ _ H) as (at_start' & s' & Hm).
  destruct (match_here_result at_start' s' m Hm)
    as (whole & first & group & -> & Hfirst & Hne & Hns).
  exists whole, first. cbn [pop List.last].
  split; [reflexivity|]. split; [assumption|]. split.
  - now apply string_of_list_ascii_not_empty.
  - rewrite list_ascii_of_string_of_list_ascii.
    apply List.Forall_forall. intros c Hc Heq. subst c.
    apply (proj1 (List.Forall_forall _ group) Hns) in Hc. discriminate Hc.
Qed.

(** *** What [handleClientEvent_] does and does not send *)

Lemma resolved_keeps (amb : Ambient) (srv : PropensityServer) :
  publicationId_ (resolved amb srv) = publicationId_ srv
  /\ version_ (resolved amb srv) = version_ srv.
Proof. unfold resolved. destruct (truthy_id (clientId_ srv)); split; reflexivity. Qed.

Lemma request_effect_quiet (amb : Ambient) (s s' : ServerWorld)
    (result : Completion Value unit) :
  server s' = server s -> fetched s' = fetched s -> reports s' = reports s ->
  request_effect amb s (result, s').
Proof.
  intros Hs Hf Hr. unfold request_effect. cbn [fst snd]. rewrite Hs.
  split; [reflexivity|]. split; [reflexivity|]. left. auto.
Qed.

Section ServerMore.

Context {env : Env}.

Lemma report_event_effect (amb : Ambient) (event : Value) (s : ServerWorld) :
  request_effect amb s (report_event amb event s).
Proof.
  destruct (Vget (heap s) event "eventType") as [eventType|e] eqn:Ht.
  2:{ unfold report_event, and_then at 1. unfold read at 1. rewrite Ht.
      now apply request_effect_quiet. }
  destruct (strict_equals eventType EVENT_SUBSCRIPTION_STATE) eqn:Hstate.
  - destruct (Vget (heap s) event "additionalParameters") as [parameters|e] eqn:Hp.
    2:{ unfold report_event, and_then at 1. unfold read at 1. rewrite Ht, Hstate.
        unfold and_then at 1. unfold read at 1. rewrite Hp.
        now apply request_effect_quiet. }
    destruct (is_nullish parameters) eqn:Hnn.
    + unfold report_event, and_then at 1. unfold read at 1. rewrite Ht, Hstate.
      unfold and_then at 1. unfold read at 1. rewrite Hp.
      unfold and_then at 1. unfold read at 1.
      destruct parameters; try discriminate Hnn; cbn [Vget];
        now apply request_effect_quiet.
    + rewrite (report_event_subscription_state _ _ _ eventType parameters) by assumption.
      destruct (sendSubscriptionState_spec amb (field_of (heap s) parameters "state")
                  (field_of (heap s) parameters "productsOrSkus") s)
        as (r & -> & Hm & Hc).
      unfold request_effect. cbn [fst snd server fetched reports].
      destruct (resolved_keeps amb (server s)) as [-> ->].
      split; [reflexivity|]. split; [reflexivity|]. right. eauto 10.
  - destruct (is_nullish (analyticsEventToPublisherEvent eventType)) eqn:Hmapped.
    { unfold report_event, and_then at 1. unfold read at 1. rewrite Ht, Hstate, Hmapped.
      now apply request_effect_quiet. }
    destruct (Vget (heap s) event "additionalParameters") as [parameters|e] eqn:Hp.
    2:{ unfold report_event, and_then at 1. unfold read at 1. rewrite Ht, Hstate, Hmapped.
        unfold and_then at 1. unfold read at 1. rewrite Hp.
        now apply request_effect_quiet. }
    destruct (Vget (heap s) event "isFromUserAction") as [mark|e] eqn:Hu.
    2:{ unfold report_event, and_then at 1. unfold read at 1. rewrite Ht, Hstate, Hmapped.
        unfold and_then at 1. unfold read at 1. rewrite Hp.
        unfold and_then at 1. unfold reads at 1.
        unfold and_then at 1. unfold read at 1. rewrite Hu.
        now apply request_effect_quiet. }
    rewrite (report_event_publisher _ _ _ eventType parameters mark) by assumption.
    destruct (JSON_stringify _ _) as [context|e].
    + destruct (sendEvent__spec amb (analyticsEventToPublisherEvent eventType) context
                  (with_heap (snd (prepared (heap s) parameters mark)) s))
        as (r & -> & Hm & Hc).
      unfold request_effect. cbn [fst snd server fetched reports with_heap].
      destruct (resolved_keeps amb (server s)) as [-> ->].
      split; [reflexivity|]. split; [reflexivity|]. right. eauto 10.
    + now apply request_effect_quiet.
Qed.

(** X12.  Whatever the event and the state, [handleClientEvent_] either
    sends nothing and reports nothing, the server being left as it was, or
    sends exactly one request more, a [GET] with credentials, with one
    report, and then ends normally.  Requests made before are never taken
    away, and the publication and the version never change. *)
Theorem handleClientEvent_sends_at_most_one_request (amb : Ambient) (event : Value)
    (s : ServerWorld) :
  request_effect amb s (handleClientEvent_ amb event s).
Proof.
  unfold handleClientEvent_, and_then at 1. unfold read at 1.
  destruct (Vget (heap s) event "eventOriginator") as [eventOriginator|e].
  2:{ now apply request_effect_quiet. }
  destruct (strict_equals eventOriginator SHOWCASE_CLIENT).
  { now apply request_effect_quiet. }
  destruct (negb (Vtruthy (enablePropensity amb))
            && negb (strict_equals eventOriginator PROPENSITY_CLIENT)).
  { now apply request_effect_quiet. }
  apply report_event_effect.
Qed.

(** X13.  An event that is let through the two gates but whose type is not
    the subscription state and has no publisher event is dropped: nothing is
    sent, nothing is written, and the parameters of the event are not even
    read. *)
Theorem event_without_publisher_event_is_dropped (amb : Ambient) (event : Value)
    (s : ServerWorld) (eventOriginator eventType : Value) :
  Vget (heap s) event "eventOriginator" = Normal eventOriginator ->
  strict_equals eventOriginator SHOWCASE_CLIENT = false ->
  Vtruthy (enablePropensity amb) = true
  \/ strict_equals eventOriginator PROPENSITY_CLIENT = true ->
  Vget (heap s) event "eventType" = Normal eventType ->
  strict_equals eventType EVENT_SUBSCRIPTION_STATE = false ->
  is_nullish (analyticsEventToPublisherEvent eventType) = true ->
  handleClientEvent_ amb event s = (Normal tt, s).
Proof.
  intros Ho Hshow Hpass Ht Hstate Hmapped.
  rewrite (handleClientEvent_past_gates _ _ _ _ Ho Hshow Hpass).
  unfold report_event, and_then at 1. unfold read at 1.
  now rewrite Ht, Hstate, Hmapped.
Qed.

(** X14.  A subscription-state event that is let through the gates and
    whose parameters are [null] or [undefined] makes [handleClientEvent_]
    throw a type error, reading [state] of nothing; no request has been
    made and the state is as before. *)
Theorem subscription_state_without_parameters_throws (amb : Ambient) (event : Value)
    (s : ServerWorld) (eventOriginator eventType parameters : Value) :
  Vget (heap s) event "eventOriginator" = Normal eventOriginator ->
  strict_equals eventOriginator SHOWCASE_CLIENT = false ->
  Vtruthy (enablePropensity amb) = true
  \/ strict_equals eventOriginator PROPENSITY_CLIENT = true ->
  Vget (heap s) event "eventType" = Normal eventType ->
  strict_equals eventType EVENT_SUBSCRIPTION_STATE = true ->
  Vget (heap s) event "additionalParameters" = Normal parameters ->
  is_nullish parameters = true ->
  exists message, handleClientEvent_ amb event s = (Throw (TypeError message), s).
Proof.
  intros Ho Hshow Hpass Ht Hstate Hp Hnn.
  rewrite (handleClientEvent_past_gates _ _ _ _ Ho Hshow Hpass).
  unfold report_event, and_then at 1. unfold read at 1. rewrite Ht, Hstate.
  unfold and_then at 1. unfold read at 1. rewrite Hp.
  unfold and_then at 1. unfold read at 1.
  destruct parameters; try discriminate Hnn; cbn [Vget]; eexists; reflexivity.
Qed.

(** *** The cookie is not looked at again *)

Lemma propensityUrl_known (amb : Ambient) (cookie : string) (u : string)
    (s : ServerWorld) :
  truthy_id (clientId_ (server s)) = true ->
  propensityUrl_ (with_cookie cookie amb) u s = propensityUrl_ amb u s.
Proof.
  intros Hknown. unfold propensityUrl_, and_then, reads, ret.
  rewrite !getClientId_resolved. unfold resolved. rewrite Hknown. reflexivity.
Qed.

Lemma sendEvent_known (amb : Ambient) (cookie : string) (event context : Value)
    (s : ServerWorld) :
  truthy_id (clientId_ (server s)) = true ->
  sendEvent_ (with_cookie cookie amb) event context s = sendEvent_ amb event context s.
Proof.
  intros Hknown. unfold sendEvent_, and_then, note, reads, update.
  now rewrite propensityUrl_known.
Qed.

Lemma sendSubscriptionState_known (amb : Ambient) (cookie : string)
    (state productsOrSkus : Value) (s : ServerWorld) :
  truthy_id (clientId_ (server s)) = true ->
  sendSubscriptionState (with_cookie cookie amb) state productsOrSkus s
  = sendSubscriptionState amb state productsOrSkus s.
Proof.
  intros Hknown. unfold sendSubscriptionState, and_then, note, reads, update.
  now rewrite propensityUrl_known.
Qed.

Lemma report_event_known (amb : Ambient) (cookie : string) (event : Value)
    (s : ServerWorld) :
  truthy_id (clientId_ (server s)) = true ->
  report_event (with_cookie cookie amb) event s = report_event amb event s.
Proof.
  intros Hknown.
  destruct (Vget (heap s) event "eventType") as [eventType|e] eqn:Ht.
  2:{ do 2 (unfold report_event at 1; unfold and_then at 1; unfold read at 1;
            rewrite Ht). reflexivity. }
  destruct (strict_equals eventType EVENT_SUBSCRIPTION_STATE) eqn:Hstate.
  - destruct (Vget (heap s) event "additionalParameters") as [parameters|e] eqn:Hp.
    2:{ do 2 (unfold report_event at 1; unfold and_then at 1; unfold read at 1;
              rewrite Ht, Hstate; unfold and_then at 1; unfold read at 1; rewrite Hp).
        reflexivity. }
    destruct (is_nullish parameters) eqn:Hnn.
    + destruct parameters; try discriminate Hnn;
        do 2 (unfold report_event at 1; unfold and_then at 1; unfold read at 1;
              rewrite Ht, Hstate; unfold and_then at 1; unfold read at 1; rewrite Hp;
              unfold and_then at 1; unfold read at 1; cbn [Vget]);
        reflexivity.
    + rewrite !(report_event_subscription_state _ _ _ eventType parameters) by assumption.
      now apply sendSubscriptionState_known.
  - destruct (is_nullish (analyticsEventToPublisherEvent eventType)) eqn:Hmapped.
    { do 2 (unfold report_event at 1; unfold and_then at 1; unfold read at 1;
            rewrite Ht, Hstate, Hmapped). reflexivity. }
    destruct (Vget (heap s) event "additionalParameters") as [parameters|e] eqn:Hp.
    2:{ do 2 (unfold report_event at 1; unfold and_then at 1; unfold read at 1;
              rewrite Ht, Hstate, Hmapped; unfold and_then at 1; unfold read at 1;
              rewrite Hp). reflexivity. }
    destruct (Vget (heap s) event "isFromUserAction") as [mark|e] eqn:Hu.
    2:{ do 2 (unfold report_event at 1; unfold and_then at 1; unfold read at 1;
              rewrite Ht, Hstate, Hmapped; unfold and_then at 1; unfold read at 1;
              rewrite Hp; unfold and_then at 1; unfold reads at 1;
              unfold and_then at 1; unfold read at 1; rewrite Hu). reflexivity. }
    rewrite !(report_event_publisher _ _ _ eventType parameters mark) by assumption.
    destruct (JSON_stringify _ _) as [context|e]; [|reflexivity].
    now apply sendEvent_known.
Qed.

(** X15.  Once the server holds a client identifier, no request looks at
    the cookie again: handling an event and asking for a propensity score do
    exactly the same, whatever the cookie string has become. *)
Theorem requests_ignore_the_cookie_once_resolved (amb : Ambient) (cookie : string)
    (s : ServerWorld) :
  truthy_id (clientId_ (server s)) = true ->
  (forall event,
     handleClientEvent_ (with_cookie cookie amb) event s = handleClientEvent_ amb event s)
  /\ (forall referrer type,
        getPropensity_request (with_cookie cookie amb) referrer type s
        = getPropensity_request amb referrer type s)
  /\ (forall state productsOrSkus,
        sendSubscriptionState (with_cookie cookie amb) state productsOrSkus s
        = sendSubscriptionState amb state productsOrSkus s).
Proof.
  intros Hknown. split; [|split].
  - intros event. unfold handleClientEvent_, and_then, read.
    destruct (Vget (heap s) event "eventOriginator") as [eventOriginator|e];
      [|reflexivity].
    destruct (strict_equals eventOriginator SHOWCASE_CLIENT); [reflexivity|].
    cbn [enablePropensity with_cookie].
    destruct (negb (Vtruthy (enablePropensity amb))
              && negb (strict_equals eventOriginator PROPENSITY_CLIENT));
      [reflexivity|].
    now apply report_event_known.
  - intros referrer type. unfold getPropensity_request, and_then, reads.
    now rewrite propensityUrl_known.
  - intros state productsOrSkus. now apply sendSubscriptionState_known.
Qed.

End ServerMore.

(* --------------------------------------------------------------------- *)
(** ** The further properties on the examples *)
(* --------------------------------------------------------------------- *)

(** A [null] between two well-formed entries: the parser throws. *)
Lemma parsePropensityResponse_null_entry_witness :
  let response :=
    Obj [("header", Obj [("ok", Bool true)]);
         ("scores", Arr [Obj [("product", Str "a"); ("score", Num 5)]; Null; Obj []])] in
  parsePropensityResponse_ spells_two_only 4 response
  = Some (Throw (TypeError "Cannot read property score"))
  /\ getPropensity spells_two_only 4 response
     = Some (Rejected (TypeError "Cannot read property score")).
Proof.
  intros response.
  assert (Hbefore : Forall readable [Obj [("product", Str "a"); ("score", Num 5)]])
    by (repeat constructor).
  assert (Hfuel : List.length [Obj [("product", Str "a"); ("score", Num 5)]] < 4)
    by (cbn; lia).
  exact (parsePropensityResponse_null_entry spells_two_only 4 response
           [Obj [("product", Str "a"); ("score", Num 5)]] [Obj []] Null
           I eq_refl eq_refl eq_refl Hbefore (fun H => H) Hfuel).
Defined.

(** On the sample response three units of fuel are enough, and thirty give
    the same. *)
Lemma parsePropensityResponse_terminates_witness :
  exists result,
    parsePropensityResponse_ spells_two_only 3 sample_response = Some result
    /\ parsePropensityResponse_ spells_two_only 30 sample_response = Some result.
Proof.
  destruct (parsePropensityResponse_terminates spells_two_only sample_response)
    as [result Hresult].
  exists result. split; apply Hresult; vm_compute; lia.
Defined.

(** A third listener on the proceeding manager is called sixth. *)
Lemma listener_registered_last_is_called_last_witness :
  let m' := {| listeners_ := [VFun 2; VFun 3; VFun 0];
               filterers_ := [VFun 0; VFun 2; VFun 3];
               lastAction_ := None |} in
  exists c,
    calls_of (handleEvent_resume (env := sample_env) m' sample_activation) sample_world
    = calls_of (handleEvent_resume (env := sample_env) proceeding_manager
                  sample_activation) sample_world ++ [c]
    /\ role c = AsListener
    /\ position c = 2
    /\ arguments c = [VRef 1; VUndefined].
Proof.
  intros m'.
  destruct (listener_registered_last_is_called_last (env := sample_env) (VFun 0)
              proceeding_manager m' sample_activation sample_world eq_refl)
    as (_ & _ & Hcalled).
  assert (Hnot : dispatch_cancelled (env := sample_env) proceeding_manager
                   sample_activation sample_world = false)
    by (vm_compute; reflexivity).
  destruct (Hcalled Hnot) as (c & Hcalls & Hrole & Hpos & Hargs & _).
  exists c. split; [exact Hcalls|]. split; [exact Hrole|]. split; [exact Hpos|exact Hargs].
Defined.



(** The event of the propensity client is a publisher event, that of the
    core client is not, and [null] cannot be asked. *)
Lemma isPublisherEvent_classifies_witness :
  (exists what,
     isPublisherEvent (env := sample_env) sample_store VNull = Throw (TypeError what))
  /\ isPublisherEvent (env := sample_env) sample_store (VRef 1) = Normal true
  /\ isPublisherEvent (env := sample_env) sample_store (VRef 6) = Normal false.
Proof.
  split; [|split].
  - exact (proj1 (isPublisherEvent_classifies (env := sample_env) sample_store VNull)
             eq_refl).
  - destruct (proj2 (isPublisherEvent_classifies (env := sample_env) sample_store (VRef 1))
                eq_refl) as (answer & Hrun & Hyes & _).
    refine (eq_trans Hrun _). apply f_equal. apply Hyes. left. reflexivity.
  - destruct (proj2 (isPublisherEvent_classifies (env := sample_env) sample_store (VRef 6))
                eq_refl) as (answer & Hrun & _ & Hno).
    refine (eq_trans Hrun _). apply f_equal.
    apply (Hno (VNum 1)); reflexivity.
Defined.

(** [logSwgEvent] with a known type and nothing else suspends one
    activation for a new event marked [false]; with an unknown type it
    throws. *)
Lemma logSwgEvent_logs_a_core_event_witness :
  let event := VRef (fresh (dom sample_store)) in
  let run :=
    logSwgEvent (env := sample_env) proceeding_manager (VNum 1) VUndefined VUndefined
      sample_world in
  Vget (store (snd run)) event "eventOriginator" = Normal (VNum 1)
  /\ Vget (store (snd run)) event "isFromUserAction" = Normal (VBool false)
  /\ Vget (store (snd run)) event "additionalParameters" = Normal VNull
  /\ is_normal_run (fst run) = true
  /\ awaiting (snd run) = [{| act_event := event; act_eventParams := VUndefined |}]
  /\ is_normal_run
       (fst (logSwgEvent (env := sample_env) proceeding_manager (VNum 99) VUndefined
               VUndefined sample_world)) = false.
Proof.
  intros event run.
  destruct (logSwgEvent_logs_a_core_event (env := sample_env) proceeding_manager
              (VNum 1) VUndefined VUndefined sample_world)
    as ((_ & Ho & Hu & Hp) & _ & _ & Hvalid & _).
  destruct (Hvalid eq_refl eq_refl (or_intror eq_refl) (or_introl eq_refl))
    as (Hrun & Hawaiting).
  destruct (logSwgEvent_logs_a_core_event (env := sample_env) proceeding_manager
              (VNum 99) VUndefined VUndefined sample_world)
    as (_ & _ & _ & _ & Hinvalid).
  split; [exact Ho|]. split; [exact Hu|]. split; [exact Hp|]. split; [exact Hrun|].
  split; [exact Hawaiting|]. exact (proj1 (Hinvalid eq_refl)).
Defined.

(** The identifier is found behind another cookie and a space, and stops
    at the semicolon. *)
Lemma getClientId_finds_the_cookie_witness :
  let cookie := "a=1; __gads=ID=abc; b=2" in
  option_map pop (match_gads cookie) = Some "ID=abc"
  /\ fst (getClientId_ (sample_ambient cookie VNull) sample_server_world)
     = Normal (Some (encodeURIComponent "ID=abc")).
Proof.
  intros cookie.
  assert (Hlead : list_ascii_of_string "a=1;" = []
                  \/ exists pre,
                       list_ascii_of_string "a=1;" = pre ++ [";"%char]
                       /\ Forall (fun c => Ascii.eqb c "_"%char = false) pre).
  { right. exists (list_ascii_of_string "a=1"). split; [reflexivity|].
    repeat constructor. }
  assert (Hsp : Forall (fun c => is_space c = true) [" "%char])
    by (repeat constructor).
  assert (Hv : list_ascii_of_string "ID=abc" <> []) by (intros H; discriminate H).
  assert (Hvalue : Forall (fun c => not_semicolon c = true) (list_ascii_of_string "ID=abc"))
    by (repeat constructor).
  assert (Hfirst : forall c v', list_ascii_of_string "ID=abc" = c :: v' ->
                                is_space c = false).
  { intros c v' H. injection H as <- _. reflexivity. }
  assert (Hrest : forall c rest', list_ascii_of_string "; b=2" = c :: rest' ->
                                  not_semicolon c = false).
  { intros c rest' H. injection H as <- _. reflexivity. }
  destruct (getClientId_finds_the_cookie (list_ascii_of_string "a=1;") [" "%char]
              (list_ascii_of_string "ID=abc") (list_ascii_of_string "; b=2")
              Hlead Hsp Hv Hvalue Hfirst Hrest) as (Hmatch & Hserver).
  split; [exact Hmatch|].
  exact (proj1 (Hserver (sample_ambient cookie VNull) sample_server_world
                  eq_refl eq_refl)).
Defined.

(** The match on [__gads=abc]. *)
Lemma match_gads_captures_a_value_witness :
  match_gads "__gads=abc" = Some ["__gads=abc"; ""; "abc"]
  /\ pop ["__gads=abc"; ""; "abc"] <> ""
  /\ Forall (fun c => c <> ";"%char) (list_ascii_of_string (pop ["__gads=abc"; ""; "abc"])).
Proof.
  assert (Hmatch : match_gads "__gads=abc" = Some ["__gads=abc"; ""; "abc"])
    by (vm_compute; reflexivity).
  destruct (match_gads_captures_a_value "__gads=abc" ["__gads=abc"; ""; "abc"] Hmatch)
    as (whole & first & _ & _ & Hvalue & Hfree).
  split; [exact Hmatch|]. split; [exact Hvalue|exact Hfree].
Defined.

(** The event of no known type is dropped although the flag is on. *)
Lemma event_without_publisher_event_is_dropped_witness :
  handleClientEvent_ (env := sample_env) (sample_ambient "" (VBool true)) (VRef 8)
    sample_server_world
  = (Normal tt, sample_server_world).
Proof.
  exact (event_without_publisher_event_is_dropped (env := sample_env)
           (sample_ambient "" (VBool true)) (VRef 8) sample_server_world
           (VNum 1) (VNum 99) eq_refl eq_refl (or_introl eq_refl) eq_refl eq_refl eq_refl).
Defined.

(** The subscription-state event without parameters makes the handler
    throw. *)
Lemma subscription_state_without_parameters_throws_witness :
  exists message,
    handleClientEvent_ (env := sample_env) (sample_ambient "" (VBool false)) (VRef 9)
      world_with_bare_state_event
    = (Throw (TypeError message), world_with_bare_state_event).
Proof.
  exact (subscription_state_without_parameters_throws (env := sample_env)
           (sample_ambient "" (VBool false)) (VRef 9) world_with_bare_state_event
           (VNum 3) (VNum 3) VNull eq_refl eq_refl (or_intror eq_refl) eq_refl eq_refl
           eq_refl eq_refl).
Defined.

(** The server that knows its client does the same under another cookie. *)
Lemma requests_ignore_the_cookie_once_resolved_witness :
  handleClientEvent_ (env := sample_env)
    (with_cookie "__gads=other" (sample_ambient "" (VBool true))) (VRef 1)
    world_with_known_client
  = handleClientEvent_ (env := sample_env) (sample_ambient "" (VBool true)) (VRef 1)
      world_with_known_client
  /\ getPropensity_request (env := sample_env)
       (with_cookie "__gads=other" (sample_ambient "" (VBool true))) "ref" "general"
       world_with_known_client
     = getPropensity_request (env := sample_env) (sample_ambient "" (VBool true))
         "ref" "general" world_with_known_client.
Proof.
  assert (Hknown : truthy_id (clientId_ (server world_with_known_client)) = true)
    by (vm_compute; reflexivity).
  destruct (requests_ignore_the_cookie_once_resolved (env := sample_env)
              (sample_ambient "" (VBool true)) "__gads=other" world_with_known_client
              Hknown) as (Hevent & Hscore & _).
  split; [exact (Hevent (VRef 1))|exact (Hscore "ref" "general")].
Defined.
